(** * JsonRpcEngine: the middleware dispatch engine of packages/core/src/jrpcengine.ts

    A shallow embedding of the engine.  Objects live in a store of mutable
    cells addressed by locations, so that the request copy made by [_handle],
    the response shell, and the sharing of both between an outer engine and
    an engine nested through [asMiddleware] are explicit.  Promises are
    modelled by their eventual state: a promise that is never settled is
    [Pending].

    The middleware stack [_middleware] of an engine is a list; [push]
    appends to it before the engine is used, and the functions below take
    the stack as their first argument.

    Scope of the model.
    - A middleware turn is one synchronous run of a script of effects on the
      request and response objects it is handed ([ASet], [ADelete]) and of
      calls to its continuations ([ANext], [AEnd]), ended by a [AThrow] or
      by returning.  The script
      is computed from the current contents of the two objects.  A turn that
      calls neither continuation leaves the promise of [_runMiddleware]
      pending.
    - Return handlers are function values [VFun] carrying a script of writes
      to the request and response in their scope, calls to the handler
      callback ([HCallback]) and a [HThrow]; [VEngineHandler] is the handler
      that [asMiddleware] forwards to the outer engine.
    - The dispatches of a batch are run one after the other, in the order
      in which [reqs.map] starts them: each one reads the caller's request
      once, at its start, and then writes only to the two objects it
      allocates (lemma [preserved__handle]).
    - JS numbers are restricted to integers. *)

From stdpp Require Import gmap strings list fin_maps.

Set Warnings "-register-all".
Open Scope string_scope.
Open Scope list_scope.

(** ** Values *)

Definition loc := positive.

Inductive target := Req | Res.

(** A JS value.  Plain objects are references into the store; arrays, error
    objects and functions are never written to by the engine and are kept as
    immutable values. *)
Inductive value :=
| VUndef
| VNull
| VBool (b : bool)
| VNum (n : Z)
| VStr (s : string)
| VObj (l : loc)
| VArr (elems : list value)
| VError (message : string)
| VSerialized (e : value)
| VFun (body : list haction)
| VEngineHandler (returnHandlers : list value)
with haction :=
| HSet (t : target) (k : string) (v : value)
| HDelete (t : target) (k : string)
| HCallback (err : value)
| HThrow (e : value).

(** The effects of one middleware turn: [t.k = v], [delete t.k],
    [next(returnHandler)], [end(err)], [throw e].  [next()] and [end()] pass
    [undefined]. *)
Inductive action :=
| ASet (t : target) (k : string) (v : value)
| ADelete (t : target) (k : string)
| ANext (returnHandler : value)
| AEnd (err : value)
| AThrow (e : value).

Abbreviation obj := (gmap string value).

(** Modelled from the spec: the class SerializableError (./serializableError)
    is absent from the sources; the spec describes an error object carrying
    a message.  [SerializableError message] is the object built by
    [new SerializableError({ message })]. *)
Definition SerializableError (message : string) : value := VError message.

(** Modelled from the spec: serializeError (./utils) is absent from the
    sources; the spec (4.6) says it maps any thrown or returned value to the
    stable error shape, an object.  It is kept symbolic: [VSerialized e] is
    the normalized form of [e]. *)
Definition serializeError (e : value) : value := VSerialized e.

(** The TypeError raised by calling a value that is not a function. *)
Definition TypeError_not_a_function : value := VError "handler is not a function".

(** JS truthiness: [!v] is [negb (truthy v)]. *)
Definition truthy (v : value) : bool :=
  match v with
  | VUndef | VNull => false
  | VBool b => b
  | VNum n => negb (n =? 0)%Z
  | VStr s => negb (String.eqb s "")
  | _ => true
  end.

Inductive jstype := TUndefined | TObject | TBoolean | TNumber | TString | TFunction.

Definition typeof (v : value) : jstype :=
  match v with
  | VUndef => TUndefined
  | VNull => TObject
  | VBool _ => TBoolean
  | VNum _ => TNumber
  | VStr _ => TString
  | VObj _ | VArr _ | VError _ | VSerialized _ => TObject
  | VFun _ | VEngineHandler _ => TFunction
  end.

Definition is_function (v : value) : bool :=
  match typeof v with TFunction => true | _ => false end.

Definition is_object_type (v : value) : bool :=
  match typeof v with TObject => true | _ => false end.

Definition is_string (v : value) : bool :=
  match typeof v with TString => true | _ => false end.

Definition isArray (v : value) : bool :=
  match v with VArr _ => true | _ => false end.

(** [a || b] on values. *)
Definition js_or (a b : value) : value := if truthy a then a else b.

(** ** The store *)

(** A middleware: a function, given by the script it runs on the current
    contents of the request and of the response, or the middleware that
    [asMiddleware] makes of an engine with the given stack. *)
Inductive middleware :=
| MFun (f : obj → obj → list action)
| MEngine (stack : list middleware).

(** The middleware that the engine invokes, and the return handlers it
    calls, are recorded in order. *)
Inductive event :=
| EvMiddleware (m : middleware)
| EvHandler (h : value).

Record world := World { heap : gmap loc obj; trace : list event }.

Definition cell (w : world) (l : loc) : obj := default ∅ (heap w !! l).

(** [o.k]: a missing property reads as [undefined]. *)
Definition prop (o : obj) (k : string) : value := default VUndef (o !! k).

(** [k in o]. *)
Definition has_prop (o : obj) (k : string) : bool := bool_decide (is_Some (o !! k)).

(** [v.k] for an arbitrary value: only plain objects carry the properties
    the engine reads. *)
Definition get (w : world) (v : value) (k : string) : value :=
  match v with
  | VObj l => prop (cell w l) k
  | _ => VUndef
  end.

Definition set_cell (w : world) (l : loc) (o : obj) : world :=
  World (<[l := o]> (heap w)) (trace w).

Definition set_prop (w : world) (l : loc) (k : string) (v : value) : world :=
  set_cell w l (<[k := v]> (cell w l)).

Definition delete_prop (w : world) (l : loc) (k : string) : world :=
  set_cell w l (delete k (cell w l)).

Definition log (w : world) (e : event) : world :=
  World (heap w) (trace w ++ [e]).

(** Allocation of a new object. *)
Definition alloc (w : world) (o : obj) : loc * world :=
  let l := fresh (dom (heap w)) in (l, set_cell w l o).
Arguments alloc : simpl never.

(** The own properties copied by [{ ...v }]. *)
Definition spread (w : world) (v : value) : obj :=
  match v with
  | VObj l => cell w l
  | _ => ∅
  end.

(** ** Promises *)

(** The eventual state of a promise, or of a call of an async function. *)
Inductive outcome (A : Type) :=
| Fulfilled (a : A)
| Rejected (e : value)
| Pending.
Arguments Fulfilled {A} a.
Arguments Rejected {A} e.
Arguments Pending {A}.

(** ** _runMiddleware: one turn *)

(** The state of one call of [_runMiddleware]: the store, the array
    [returnHandlers] it shares with [_runAllMiddleware], and the value its
    promise was resolved with, if it was.  A promise is resolved at most
    once: later calls of [resolve] are ignored. *)
Record turn := Turn {
  tw : world;
  handlers : list value;
  settled : option (value * bool)
}.

Definition resolve (r : value * bool) (t : turn) : turn :=
  match settled t with
  | Some _ => t
  | None => Turn (tw t) (handlers t) (Some r)
  end.

Definition on_world (f : world → world) (t : turn) : turn :=
  Turn (f (tw t)) (handlers t) (settled t).

(** [returnHandlers.push(h)]. *)
Definition returnHandlers_push (h : value) (t : turn) : turn :=
  Turn (tw t) (handlers t ++ [h]) (settled t).

Definition target_loc (req res : loc) (t : target) : loc :=
  match t with Req => req | Res => res end.

Definition handlers_must_be_functions : string :=
  "JsonRpcEngine: 'next' return handlers must be functions".

(** The [end] continuation of [_runMiddleware]. *)
Definition end_ (res : loc) (err : value) (t : turn) : turn :=
  let error := js_or err (prop (cell (tw t) res) "error") in
  let t1 :=
    if truthy error
    then on_world (λ w, set_prop w res "error" (serializeError error)) t
    else t in
  resolve (error, true) t1.

(** The [next] continuation of [_runMiddleware]. *)
Definition next_ (res : loc) (returnHandler : value) (t : turn) : turn :=
  let res_error := prop (cell (tw t) res) "error" in
  if truthy res_error then end_ res res_error t
  else
    let t1 :=
      if truthy returnHandler then
        let t0 :=
          if negb (is_function returnHandler)
          then end_ res (SerializableError handlers_must_be_functions) t
          else t in
        returnHandlers_push returnHandler t0
      else t in
    resolve (VNull, false) t1.

(** The call [middleware(req, res, next, end)] inside the try block of
    [_runMiddleware], for a middleware given by its script; a throw is
    caught and passed to [end]. *)
Fixpoint run_script (req res : loc) (s : list action) (t : turn) : turn :=
  match s with
  | [] => t
  | ASet tg k v :: s' =>
      run_script req res s' (on_world (λ w, set_prop w (target_loc req res tg) k v) t)
  | ADelete tg k :: s' =>
      run_script req res s' (on_world (λ w, delete_prop w (target_loc req res tg) k) t)
  | ANext h :: s' => run_script req res s' (next_ res h t)
  | AEnd e :: s' => run_script req res s' (end_ res e t)
  | AThrow e :: _ => end_ res e t
  end.

(** ** _runReturnHandlers *)

(** The promise built around one handler call:
    [handler((err) => (err ? reject(err) : resolve()))]. *)
Definition settle (r : outcome unit) (p : world * outcome unit) : world * outcome unit :=
  match p.2 with
  | Pending => (p.1, r)
  | _ => p
  end.

Definition callback (err : value) (p : world * outcome unit) : world * outcome unit :=
  settle (if truthy err then Rejected err else Fulfilled tt) p.

Fixpoint run_hscript (req res : loc) (s : list haction) (p : world * outcome unit)
  : world * outcome unit :=
  match s with
  | [] => p
  | HSet tg k v :: s' =>
      run_hscript req res s' (set_prop p.1 (target_loc req res tg) k v, p.2)
  | HDelete tg k :: s' =>
      run_hscript req res s' (delete_prop p.1 (target_loc req res tg) k, p.2)
  | HCallback err :: s' => run_hscript req res s' (callback err p)
  | HThrow e :: _ => settle (Rejected e) p
  end.

(** The for-of loop of [_runReturnHandlers] over the awaited handler
    promises; [call] is the call of one handler. *)
Definition for_handlers (call : value → world → world * outcome unit)
  : list value → world → world * outcome unit :=
  fix go hs w :=
    match hs with
    | [] => (w, Fulfilled tt)
    | h :: rest =>
        match call h w with
        | (w', Fulfilled _) => go rest w'
        | (w', Rejected e) => (w', Rejected e)
        | (w', Pending) => (w', Pending)
        end
    end.

(** One [await new Promise((resolve, reject) => handler(...))].  The
    handler forwarded by [asMiddleware] runs the inner engine's handlers and
    reports to the callback; calling a value that is not a function throws
    inside the executor, which rejects the promise. *)
Fixpoint call_handler (req res : loc) (h : value) (w : world) {struct h}
  : world * outcome unit :=
  match h with
  | VFun body => run_hscript req res body (log w (EvHandler h), Pending)
  | VEngineHandler returnHandlers =>
      match for_handlers (call_handler req res) returnHandlers (log w (EvHandler h)) with
      | (w', Fulfilled _) => callback VUndef (w', Pending)
      | (w', Rejected error) => callback error (w', Pending)
      | (w', Pending) => (w', Pending)
      end
  | _ => (w, Rejected TypeError_not_a_function)
  end.

Definition _runReturnHandlers (req res : loc) (handlers : list value) (w : world)
  : world * outcome unit :=
  for_handlers (call_handler req res) handlers w.

(** ** _runAllMiddleware and asMiddleware *)

(** The for-of loop of [_runAllMiddleware]: [run] is the awaited call of
    [_runMiddleware] on one middleware; the loop carries the store, the
    array [returnHandlers] and the variables [error] and [isComplete], and
    stays pending when a middleware never resolves its promise. *)
Definition for_middleware (run : middleware → world → list value → turn)
  : list middleware → world → list value → value → bool →
    world * option (value * bool * list value) :=
  fix go stack w returnHandlers error isComplete :=
    match stack with
    | [] => (w, Some (error, isComplete, returnHandlers))
    | m :: rest =>
        let t := run m w returnHandlers in
        match settled t with
        | None => (tw t, None)
        | Some (error', isComplete') =>
            if isComplete'
            then (tw t, Some (error', isComplete', handlers t))
            else go rest (tw t) (handlers t) error' isComplete'
        end
    end.

(** [returnHandlers.reverse()] on the result of the loop. *)
Definition reverse_handlers (r : world * option (value * bool * list value))
  : world * option (value * bool * list value) :=
  match r with
  | (w, Some (error, isComplete, returnHandlers)) =>
      (w, Some (error, isComplete, rev returnHandlers))
  | (w, None) => (w, None)
  end.

(** [_runMiddleware(req, res, middleware, returnHandlers)].  For a
    middleware obtained from [asMiddleware], the body of the async function
    that [asMiddleware] returns is run on the same request and response. *)
Fixpoint _runMiddleware (req res : loc) (m : middleware) (w : world)
    (returnHandlers : list value) {struct m} : turn :=
  let t := Turn (log w (EvMiddleware m)) returnHandlers None in
  match m with
  | MFun f => run_script req res (f (cell w req) (cell w res)) t
  | MEngine stack =>
      match reverse_handlers
              (for_middleware (_runMiddleware req res) stack (tw t) [] VNull false) with
      | (w1, None) => on_world (λ _, w1) t
      | (w1, Some (middlewareError, isComplete, innerHandlers)) =>
          if isComplete then
            match _runReturnHandlers req res innerHandlers w1 with
            | (w2, Fulfilled _) => end_ res middlewareError (on_world (λ _, w2) t)
            | (w2, Rejected error) => end_ res error (on_world (λ _, w2) t)
            | (w2, Pending) => on_world (λ _, w2) t
            end
          else next_ res (VEngineHandler innerHandlers) (on_world (λ _, w1) t)
      end
  end.

Definition _runAllMiddleware (req res : loc) (middlewareStack : list middleware) (w : world)
  : world * option (value * bool * list value) :=
  reverse_handlers (for_middleware (_runMiddleware req res) middlewareStack w [] VNull false).

(** [push(middleware)]: the stack after adding a middleware. *)
Definition push (_middleware : list middleware) (m : middleware) : list middleware :=
  _middleware ++ [m].

(** [asMiddleware()]: the engine as a middleware of another engine. *)
Definition asMiddleware (_middleware : list middleware) : middleware :=
  MEngine _middleware.

(** ** _checkForCompletion, _processRequest, _handle *)

Definition no_result_or_error : string := "Response has no error or result for request".
Definition nothing_ended : string := "Nothing ended request".

(** [_checkForCompletion]: the error it throws, if any. *)
Definition _checkForCompletion (w : world) (req res : loc) (isComplete : bool) : option value :=
  if negb (has_prop (cell w res) "result") && negb (has_prop (cell w res) "error")
  then Some (SerializableError no_result_or_error)
  else if negb isComplete
  then Some (SerializableError nothing_ended)
  else None.

Definition _processRequest (_middleware : list middleware) (req res : loc) (w : world)
  : world * outcome unit :=
  match _runAllMiddleware req res _middleware w with
  | (w1, None) => (w1, Pending)
  | (w1, Some (error, isComplete, returnHandlers)) =>
      match _checkForCompletion w1 req res isComplete with
      | Some e => (w1, Rejected e)
      | None =>
          match _runReturnHandlers req res returnHandlers w1 with
          | (w2, Fulfilled _) =>
              if truthy error then (w2, Rejected error) else (w2, Fulfilled tt)
          | (w2, Rejected e) => (w2, Rejected e)
          | (w2, Pending) => (w2, Pending)
          end
      end
  end.

Definition request_must_be_plain_object : string := "request must be plain object".
Definition method_must_be_string : string := "method must be string".

(** The happy path of [_handle] up to the try block: the working copy
    [req = { ...callerReq }] and the response shell
    [res = { id: req.id, jsonrpc: req.jsonrpc }]. *)
Definition new_request_response (w : world) (callerReq : value) : loc * loc * world :=
  let '(req, w1) := alloc w (spread w callerReq) in
  let '(res, w2) :=
    alloc w1 (<["id" := prop (cell w1 req) "id"]>
                (<["jsonrpc" := prop (cell w1 req) "jsonrpc"]> ∅)) in
  (req, res, w2).

(** The end of [_handle], from the catch block on: [error] is [null] or
    what the awaited [_processRequest] threw; an errored response loses its
    result and gets the serialized error unless it already has one; then
    [cb(error, res)]. *)
Definition deliver (res : loc) (r : world * outcome unit) : world * option (value * value) :=
  match r with
  | (w3, Pending) => (w3, None)
  | (w3, Fulfilled _) => (w3, Some (VNull, VObj res))
  | (w3, Rejected error) =>
      let w4 :=
        if truthy error then
          let w' := delete_prop w3 res "result" in
          if negb (truthy (prop (cell w' res) "error"))
          then set_prop w' res "error" (serializeError error)
          else w'
        else w3 in
      (w4, Some (error, VObj res))
  end.

(** [_handle(callerReq, cb)]: the arguments [(error, response)] the callback
    is called with, or [None] when it is never called. *)
Definition _handle (_middleware : list middleware) (callerReq : value) (w : world)
  : world * option (value * value) :=
  if negb (truthy callerReq) || isArray callerReq || negb (is_object_type callerReq) then
    let error := SerializableError request_must_be_plain_object in
    let '(l, w1) :=
      alloc w (<["id" := VUndef]> (<["jsonrpc" := VStr "2.0"]> (<["error" := error]> ∅))) in
    (w1, Some (error, VObj l))
  else if negb (is_string (get w callerReq "method")) then
    let error := SerializableError method_must_be_string in
    let '(l, w1) :=
      alloc w (<["id" := get w callerReq "id"]>
                 (<["jsonrpc" := VStr "2.0"]> (<["error" := error]> ∅))) in
    (w1, Some (error, VObj l))
  else
    let '(req, res, w2) := new_request_response w callerReq in
    deliver res (_processRequest _middleware req res w2).

(** ** _promiseHandle, _handleBatch, handle *)

(** [_promiseHandle(req)]: resolved with the response the callback of
    [_handle] receives. *)
Definition _promiseHandle (_middleware : list middleware) (req : value) (w : world)
  : world * outcome value :=
  match _handle _middleware req w with
  | (w', Some (_err, res)) => (w', Fulfilled res)
  | (w', None) => (w', Pending)
  end.

(** [reqs.map(this._promiseHandle.bind(this))].  The dispatches are started
    in the order received and proceed interleaved at their awaits; each one
    reads the caller's request once, at its start, and afterwards touches
    only the two objects it allocates, so they are run here one after the
    other. *)
Fixpoint map_promiseHandle (_middleware : list middleware) (reqs : list value) (w : world)
  : world * list (outcome value) :=
  match reqs with
  | [] => (w, [])
  | req :: rest =>
      let '(w1, p) := _promiseHandle _middleware req w in
      let '(w2, ps) := map_promiseHandle _middleware rest w1 in
      (w2, p :: ps)
  end.

(** [Promise.all]: rejected if some promise is, fulfilled with all the
    values in order if all are fulfilled, pending otherwise. *)
Fixpoint Promise_all {A} (ps : list (outcome A)) : outcome (list A) :=
  match ps with
  | [] => Fulfilled []
  | p :: rest =>
      match p, Promise_all rest with
      | Rejected e, _ => Rejected e
      | _, Rejected e => Rejected e
      | Fulfilled a, Fulfilled l => Fulfilled (a :: l)
      | _, _ => Pending
      end
  end.

(** [_handleBatch(reqs)], promise form; with a callback the same responses
    are passed to [cb(null, responses)]. *)
Definition _handleBatch (_middleware : list middleware) (reqs : list value) (w : world)
  : world * outcome (list value) :=
  let '(w', ps) := map_promiseHandle _middleware reqs w in
  (w', Promise_all ps).

(** What a call of [handle] delivers to its caller. *)
Inductive reply :=
| Called (error : value) (response : value)
| NotCalled
| Promised (p : outcome value).

(** [handle(req, cb?)]; [cb] tells whether a callback is given.  The
    callback, when given, is a function: the guard that throws on any other
    truthy [cb] is left out.  It is also one that returns; [handle_cb] below
    is [handle] with a callback that may throw. *)
Definition handle (_middleware : list middleware) (req : value) (cb : bool) (w : world)
  : world * reply :=
  match req with
  | VArr reqs =>
      let '(w', p) := _handleBatch _middleware reqs w in
      (w', if cb then
             match p with
             | Fulfilled responses => Called VNull (VArr responses)
             | Rejected error => Called error VUndef
             | Pending => NotCalled
             end
           else
             match p with
             | Fulfilled responses => Promised (Fulfilled (VArr responses))
             | Rejected error => Promised (Rejected error)
             | Pending => Promised Pending
             end)
  | _ =>
      if cb then
        match _handle _middleware req w with
        | (w', Some (error, res)) => (w', Called error res)
        | (w', None) => (w', NotCalled)
        end
      else
        let '(w', p) := _promiseHandle _middleware req w in (w', Promised p)
  end.

(** ** handle with a callback that may throw *)

(** What a call [cb(error, response)] of the caller's callback does as far
    as the engine can tell: it returns ([None]) or it throws a value. *)
Definition callback_fn : Type := value → value → option value.

(** The promise of an async function that ends with [return cb(...)]. *)
Definition returned (thrown_by_cb : option value) : outcome unit :=
  match thrown_by_cb with
  | None => Fulfilled tt
  | Some error => Rejected error
  end.

(** [_handleBatch(reqs, cb)] with a callback: the calls made to [cb], in
    order, and the promise returned.  [cb(null, responses)] stands inside the
    try block, so that what it throws is caught and passed to [cb] again. *)
Definition _handleBatch_cb (_middleware : list middleware) (reqs : list value)
    (cb : callback_fn) (w : world) : world * (list (value * value) * outcome unit) :=
  let '(w', ps) := map_promiseHandle _middleware reqs w in
  match Promise_all ps with
  | Fulfilled responses =>
      match cb VNull (VArr responses) with
      | None => (w', ([(VNull, VArr responses)], Fulfilled tt))
      | Some error =>
          (w', ([(VNull, VArr responses); (error, VUndef)], returned (cb error VUndef)))
      end
  | Rejected error => (w', ([(error, VUndef)], returned (cb error VUndef)))
  | Pending => (w', ([], Pending))
  end.

(** [handle(req, cb)] with a callback that is a function: the calls made to
    [cb], in order, and the promise returned.  For a single request [cb] is
    called by [_handle], outside of any try block. *)
Definition handle_cb (_middleware : list middleware) (req : value) (cb : callback_fn)
    (w : world) : world * (list (value * value) * outcome unit) :=
  match req with
  | VArr reqs => _handleBatch_cb _middleware reqs cb w
  | _ =>
      match _handle _middleware req w with
      | (w', Some (error, res)) => (w', ([(error, res)], returned (cb error res)))
      | (w', None) => (w', ([], Pending))
      end
  end.

(** ** storageAvailable *)

(** A value thrown by a browser operation, with what [error.code] and
    [error.name] read on it ([undefined] on a primitive). *)
Record thrown := Thrown { thrown_value : value; thrown_code : value; thrown_name : value }.

(** What the probe of [storageAvailable] finds: reading [storage.length]
    gives a value or throws, and so do the calls of [setItem] and
    [removeItem] ([None] when the call returns). *)
Record storage := Storage {
  storage_length : thrown + value;
  storage_setItem : option thrown;
  storage_removeItem : option thrown
}.

(** The TypeError of reading a property of [undefined]. *)
Definition TypeError_undefined : thrown :=
  Thrown (VError "Cannot read properties of undefined") VUndef (VStr "TypeError").

(** [v === n] for a number [n], and [v === s] for a string [s]. *)
Definition is_number (v : value) (n : Z) : bool :=
  match v with VNum m => (m =? n)%Z | _ => false end.

Definition is_string_value (v : value) (s : string) : bool :=
  match v with VStr s' => String.eqb s' s | _ => false end.

(** The value returned by the catch block of [storageAvailable]: the chain
    of [&&] gives its first falsy operand, or its last one. *)
Definition storage_catch (error : thrown) (storageExists : bool) (storageLength : value)
  : value :=
  if negb (truthy (thrown_value error)) then thrown_value error
  else
    VBool ((is_number (thrown_code error) 22 ||
            is_number (thrown_code error) 1014 ||
            is_string_value (thrown_name error) "QuotaExceededErro r" ||
            is_string_value (thrown_name error) "NS_ERROR_DOM_QUOTA_REACHED")
           && storageExists
           && negb (is_number storageLength 0)).

(** [storageAvailable(type)], given what [window[type]] does: it throws, or
    gives [undefined] ([None]), or gives a storage. *)
Definition storageAvailable (window_type : thrown + option storage) : value :=
  match window_type with
  | inl error => storage_catch error false (VNum 0)
  | inr None => storage_catch TypeError_undefined true (VNum 0)
  | inr (Some st) =>
      match storage_length st with
      | inl error => storage_catch error true (VNum 0)
      | inr storageLength =>
          match storage_setItem st with
          | Some error => storage_catch error true storageLength
          | None =>
              match storage_removeItem st with
              | Some error => storage_catch error true storageLength
              | None => VBool true
              end
          end
      end
  end.

(** The first exception of the probe on a storage, if any. *)
Definition probe_failure (st : storage) : option thrown :=
  match storage_length st with
  | inl error => Some error
  | inr _ =>
      match storage_setItem st with
      | Some error => Some error
      | None => storage_removeItem st
      end
  end.

(** ** mimcsponge *)

(** The operations of the field [F] of ffjavascript that mimcsponge.ts
    uses; the library is not part of the repository, and the field is a
    parameter of the functions below. *)
Record field := Field {
  F_e : Z → Z;
  F_add : Z → Z → Z;
  F_pow : Z → Z → Z;
  F_normalize : Z → Z;
  F_zero : Z
}.

(** The modulus of the field [F]. *)
Definition F_p : Z :=
  21888242871839275222246405745257275088548364400416034343698204186575808495617%Z.

Definition NROUNDS : nat := 220.

(** One turn of the loop of [mimcHash], for the round [i] of [nRounds]. *)
Definition mimc_round (F : field) (cts : nat → Z) (nRounds : nat) (k : Z) (i : nat)
    (x : Z * Z) : Z * Z :=
  let '(xL, xR) := x in
  let c := cts i in
  let t := if (i =? 0)%nat then F_add F xL k else F_add F (F_add F xL k) c in
  let xR_tmp := F_e F xR in
  if (i <? nRounds - 1)%nat
  then (F_add F xR_tmp (F_pow F t 5), xL)
  else (xL, F_add F xR_tmp (F_pow F t 5)).

(** The rounds [i], [i + 1], ... of the loop, [n] of them. *)
Fixpoint mimc_rounds (F : field) (cts : nat → Z) (nRounds : nat) (k : Z) (n i : nat)
    (x : Z * Z) : Z * Z :=
  match n with
  | O => x
  | S n' => mimc_rounds F cts nRounds k n' (S i) (mimc_round F cts nRounds k i x)
  end.

(** [mimcHash(_xL_in, _xR_in, _k)]: the pair [(xL, xR)] it returns.  [cts]
    is the table of round constants of the module, which the file takes from
    [exports.getConstants], a name it does not define: the table is a
    parameter here. *)
Definition mimcHash (F : field) (cts : nat → Z) (_xL_in _xR_in _k : Z) : Z * Z :=
  let k := F_e F _k in
  let '(xL, xR) := mimc_rounds F cts NROUNDS k NROUNDS 0 (F_e F _xL_in, F_e F _xR_in) in
  (F_normalize F xL, F_normalize F xR).

(** What [mimcMultiHash] returns: one number, or an array. *)
Inductive multi := Single (x : Z) | Many (xs : list Z).

(** The first loop of [mimcMultiHash]: the state [(R, C)] after the
    elements of [arr]. *)
Definition mimc_absorb (F : field) (hash : Z → Z → Z → Z * Z) (key : Z) (arr : list Z)
  : Z * Z :=
  fold_left (λ '(R, C) a, hash (F_add F R (F_e F a)) C key) arr (F_zero F, F_zero F).

(** The second loop: [n] more outputs pushed after [outputs]. *)
Fixpoint mimc_squeeze (hash : Z → Z → Z → Z * Z) (key : Z) (n : nat) (RC : Z * Z)
    (outputs : list Z) : list Z :=
  match n with
  | O => outputs
  | S n' =>
      let S := hash RC.1 RC.2 key in
      mimc_squeeze hash key n' S (outputs ++ [S.1])
  end.

(** [mimcMultiHash(arr, key, numOutputs)]; [hash] is the function bound to
    [exports.hash], and [None] is [undefined].  The loop
    [for (i = 1; i < _numOutputs; i += 1)] makes [_numOutputs - 1] turns, none
    when [_numOutputs] is below 2. *)
Definition mimcMultiHash (F : field) (hash : Z → Z → Z → Z * Z) (arr : list Z)
    (key numOutputs : option Z) : multi :=
  let _numOutputs := default 1%Z numOutputs in
  let _key := default (F_zero F) key in
  let RC := mimc_absorb F hash _key arr in
  let outputs := mimc_squeeze hash _key (Z.to_nat (_numOutputs - 1)) RC [RC.1] in
  if (_numOutputs =? 1)%Z
  then Single (F_normalize F (default 0%Z (head outputs)))
  else Many (map (F_normalize F) outputs).

(** [cts[i] = x] on a JS array: an index past the end extends the array
    (the holes, which are never read here, are filled with [hole]). *)
Definition array_set (hole : Z) (cts : list Z) (i : nat) (x : Z) : list Z :=
  if (i <? length cts)%nat then <[i := x]> cts
  else cts ++ replicate (i - length cts) hole ++ [x].

(** The loop of [mimcGetConstants] from index [i], [n] turns.  The digest
    [c] is a string of 0x and 64 hexadecimal digits, which the code reads as
    a number with [new BN(c.slice(2), 16)]: the model carries that number,
    [keccak] is [keccak256] on such digests, and [p] is the modulus of the
    field.  The code writes [n1] in base 16 and reads it back before
    [F.e]. *)
Fixpoint mimc_constants_loop (F : field) (keccak : Z → Z) (p : Z) (n i : nat) (c : Z)
    (cts : list Z) : list Z :=
  match n with
  | O => cts
  | S n' =>
      let c' := keccak c in
      let n1 := (c' mod p)%Z in
      mimc_constants_loop F keccak p n' (S i) c' (array_set 0 cts i (F_e F n1))
  end.

(** [mimcGetConstants(seed, nRounds)] for a number of rounds; [seed_digest]
    is [keccak256(SEED)].  The argument [seed] is not used by the code. *)
Definition mimcGetConstants (F : field) (keccak : Z → Z) (p : Z) (seed_digest : Z)
    (nRounds : nat) : list Z :=
  let cts := replicate nRounds 0%Z in
  let cts := mimc_constants_loop F keccak p (nRounds - 1) 1 seed_digest cts in
  let cts := array_set 0 cts 0 (F_e F 0) in
  array_set 0 cts (length cts - 1) (F_e F 0).

(** The laws of the field that the properties of [mimcHash] rest on, for
    the elements [C] of the field. *)
Record field_laws (C : Z → Prop) (F : field) : Prop := FieldLaws {
  e_element : ∀ x, C (F_e F x);
  e_id : ∀ x, C x → F_e F x = x;
  normalize_id : ∀ x, C x → F_normalize F x = x;
  add_element : ∀ a b, C a → C b → C (F_add F a b);
  pow_element : ∀ a n, C a → C (F_pow F a n);
  add_cancel : ∀ a a' b, C a → C a' → C b → F_add F a b = F_add F a' b → a = a'
}.

(** The field of the integers modulo [p], as a model of the library. *)
Definition Zp (p : Z) : field :=
  Field (λ x, x mod p)%Z (λ a b, (a + b) mod p)%Z (λ a n, (a ^ n) mod p)%Z
        (λ x, x mod p)%Z 0%Z.

(** ** Vocabulary of the properties *)

(** The test of [_handle] on its argument. *)
Definition plain_object (v : value) : bool :=
  truthy v && negb (isArray v) && is_object_type v.

Definition well_formed (w : world) (v : value) : bool :=
  plain_object v && is_string (get w v "method").

(** A validation error, as [_handle] builds them. *)
Definition validation_error (e : value) : Prop :=
  e = SerializableError request_must_be_plain_object ∨
  e = SerializableError method_must_be_string.

(** A protocol violation, as [_checkForCompletion] throws them. *)
Definition protocol_violation (e : value) : Prop :=
  e = SerializableError no_result_or_error ∨
  e = SerializableError nothing_ended.

Definition middleware_events (tr : list event) : list middleware :=
  omap (λ e, match e with EvMiddleware m => Some m | _ => None end) tr.

Definition handler_events (tr : list event) : list value :=
  omap (λ e, match e with EvHandler h => Some h | _ => None end) tr.

(** The handler calls that running a handler to its end makes, in order:
    the handler forwarded by [asMiddleware] calls the inner handlers. *)
Fixpoint calls (h : value) : list value :=
  match h with
  | VFun _ => [h]
  | VEngineHandler returnHandlers => h :: flat_map calls returnHandlers
  | _ => []
  end.

Definition is_write (a : action) : bool :=
  match a with ASet _ _ _ | ADelete _ _ => true | _ => false end.

Definition is_signal (a : action) : bool := negb (is_write a).

Definition is_hsignal (a : haction) : bool :=
  match a with HCallback _ | HThrow _ => true | _ => false end.

Definition target_eqb (a b : target) : bool :=
  match a, b with Req, Req | Res, Res => true | _, _ => false end.

(** The action writes property [k] of [tg]. *)
Definition writes (tg : target) (k : string) (a : action) : bool :=
  match a with
  | ASet t k' _ | ADelete t k' => target_eqb t tg && String.eqb k' k
  | _ => false
  end.

Definition hwrites (tg : target) (k : string) (a : haction) : bool :=
  match a with
  | HSet t k' _ | HDelete t k' => target_eqb t tg && String.eqb k' k
  | _ => false
  end.

(** [w'] agrees with [w] on every object other than [req] and [res]. *)
Definition frame (req res : loc) (w w' : world) : Prop :=
  (∀ l, l ≠ req → l ≠ res → heap w' !! l = heap w !! l) ∧
  (∀ l, is_Some (heap w !! l) → is_Some (heap w' !! l)).

(** Objects that exist before a call are left as they are. *)
Definition preserved (w w' : world) : Prop :=
  ∀ l, is_Some (heap w !! l) → heap w' !! l = heap w !! l.

(** A plain function handler, as opposed to the handler forwarded by a
    nested engine or a value that is not callable. *)
Definition plain_function (h : value) : Prop := ∃ body, h = VFun body.

(** The last action of a turn ends it with the error [e]: [end(e)],
    [throw e], or [next] called while the response's error field holds
    [e]. *)
Definition ends_turn_with_error (error_field : value) (last : action) (e : value) : Prop :=
  truthy e = true ∧
  (last = AEnd e ∨ last = AThrow e ∨ ((∃ h, last = ANext h) ∧ error_field = e)).

(** Two calls of [_handle] deliver the same: the same error and a response
    with the same contents, or nothing. *)
Definition same_response (r r' : world * option (value * value)) : Prop :=
  match r.2, r'.2 with
  | Some (e, v), Some (e', v') => e = e' ∧ spread r.1 v = spread r'.1 v'
  | None, None => True
  | _, _ => False
  end.




(** Writes that leave the error of the response alone. *)
Definition spares_error (a : action) : bool :=
  is_write a && negb (writes Res "error" a).

(** Disciplines on the middleware of a stack: [S] constrains the script of
    every turn, [H] the body of every return handler passed to [next]. *)
Section Discipline.
Variable S : list action → bool.
Variable H : list haction → bool.

Fixpoint handler_ok (h : value) : bool :=
  match h with
  | VFun body => H body
  | VEngineHandler returnHandlers => forallb handler_ok returnHandlers
  | _ => true
  end.

Definition action_ok (a : action) : bool :=
  match a with
  | ANext h => handler_ok h
  | _ => true
  end.

Definition script_ok (s : list action) : bool := S s && forallb action_ok s.

Fixpoint middleware_ok (m : middleware) : Prop :=
  match m with
  | MFun f => ∀ req res : obj, script_ok (f req res) = true
  | MEngine stack => fold_right (λ m' rest, middleware_ok m' ∧ rest) True stack
  end.

Definition stack_ok (stack : list middleware) : Prop := Forall middleware_ok stack.
End Discipline.

(** Every turn calls [next] or [end] or throws, and every return handler
    calls its callback or throws: nothing is left pending. *)
Definition responsive : list middleware → Prop :=
  stack_ok (existsb is_signal) (existsb is_hsignal).

(** No middleware and no return handler writes property [k] of [tg]. *)
Definition never_writes (tg : target) (k : string) : list middleware → Prop :=
  stack_ok (forallb (λ a, negb (writes tg k a))) (forallb (λ a, negb (hwrites tg k a))).

(** No return handler writes property [k] of [tg]. *)
Definition handlers_never_write (tg : target) (k : string) : list middleware → Prop :=
  stack_ok (λ _, true) (forallb (λ a, negb (hwrites tg k a))).

(** A middleware given by a function, as opposed to a nested engine. *)
Definition plain_middleware (m : middleware) : Prop := ∃ f, m = MFun f.

(** The last action of a turn ends it without an error: [end(e)] or
    [throw e] with a falsy [e]. *)
Definition ends_turn_quietly (last : action) : Prop :=
  ∃ e, truthy e = false ∧ (last = AEnd e ∨ last = AThrow e).

(** A run of a stack ends cleanly on the response [res]: it did not
    complete with return handlers left to call, and the response carries the
    serialized error the run completed with, and no error otherwise. *)
Definition ends_cleanly (res : loc) (r : world * option (value * bool * list value))
  : Prop :=
  match r with
  | (w1, Some (error, isComplete, returnHandlers)) =>
      (isComplete = true → returnHandlers = []) ∧
      (if isComplete && truthy error
       then prop (cell w1 res) "error" = serializeError error
       else truthy (prop (cell w1 res) "error") = false)
  | (_, None) => True
  end.

(** ** Examples *)

Module Examples.

Definition request (id method : value) : obj :=
  <["id" := id]> (<["jsonrpc" := VStr "2.0"]> (<["method" := method]> ∅)).

(** A store holding the caller's request [{ id: 7, jsonrpc: "2.0", method: "foo" }]. *)
Definition caller : loc := 1%positive.
Definition w0 : world := World (<[caller := request (VNum 7) (VStr "foo")]> ∅) [].

(** [(req, res, next, end) => { res.result = v; end(); }] *)
Definition fixed_result (v : value) : middleware :=
  MFun (λ _ _, [ASet Res "result" v; AEnd VUndef]).

(** [(req, res, next, end) => { next(h); }] *)
Definition registers (h : value) : middleware := MFun (λ _ _, [ANext h]).

(** [(req, res, next, end) => { end(e); }] *)
Definition ends_with (e : value) : middleware := MFun (λ _ _, [AEnd e]).

(** [(req, res, next, end) => { throw e; }] *)
Definition throws (e : value) : middleware := MFun (λ _ _, [AThrow e]).

(** [(cb) => { cb(); }] *)
Definition plain_handler : value := VFun [HCallback VUndef].

(** [(cb) => { delete res.result; cb(); }] *)
Definition result_dropper : value := VFun [HDelete Res "result"; HCallback VUndef].

(** [(cb) => { req.seen = n; cb(); }]: handlers told apart by [n]. *)
Definition marker (n : Z) : value := VFun [HSet Req "seen" (VNum n); HCallback VUndef].

(** [(req, res, next, end) => { res.result = 1; next(result_dropper); }] *)
Definition sets_then_registers_dropper : middleware :=
  MFun (λ _ _, [ASet Res "result" (VNum 1); ANext result_dropper]).

(** A middleware that never calls [next] or [end]. *)
Definition silent : middleware := MFun (λ _ _, []).

(** A middleware that mutates the request it is handed. *)
Definition scribbler : middleware :=
  MFun (λ _ _, [ASet Req "method" (VStr "changed"); ADelete Req "id";
                ASet Res "result" (VNum 1); AEnd VUndef]).

(** The working copy and the response shell that [_handle] builds for
    the caller's request in [w0]. *)
Definition work_req : loc := (new_request_response w0 (VObj caller)).1.1.
Definition work_res : loc := (new_request_response w0 (VObj caller)).1.2.
Definition work : world := (new_request_response w0 (VObj caller)).2.

(** [(req, res, next, end) => { next(); }] *)
Definition passes : middleware := MFun (λ _ _, [ANext VUndef]).

(** [(req, res, next, end) => { res.partial = 1; end("boom"); }] *)
Definition fails_script : obj → obj → list action :=
  λ _ _, [ASet Res "partial" (VNum 1); AEnd (VStr "boom")].

(** Three caller requests, the second with the method "bad". *)
Definition batch_world : world :=
  World (<[1%positive := request (VNum 10) (VStr "ok")]>
           (<[2%positive := request (VNum 11) (VStr "bad")]>
              (<[3%positive := request (VNum 12) (VStr "ok")]> ∅))) [].

Definition batch : list value := [VObj 1%positive; VObj 2%positive; VObj 3%positive].

(** A middleware that throws on the method "bad" and answers the
    identifier of the request otherwise. *)
Definition picky : middleware :=
  MFun (λ req _,
    match prop req "method" with
    | VStr "bad" => [AThrow (VStr "boom")]
    | _ => [ASet Res "result" (prop req "id"); AEnd VUndef]
    end).

End Examples.

(** * Properties *)

(** ** Induction over nested stacks and nested handlers *)

Lemma middleware_nested_ind (P : middleware → Prop) :
  (∀ f, P (MFun f)) →
  (∀ stack, Forall P stack → P (MEngine stack)) →
  ∀ m, P m.
Proof.
  intros Hfun Hengine. fix IH 1. intros [f | stack].
  - apply Hfun.
  - apply Hengine. induction stack as [| m stack IHstack]; constructor; auto.
Qed.

Lemma handler_nested_ind (P : value → Prop) :
  (∀ body, P (VFun body)) →
  (∀ hs, Forall P hs → P (VEngineHandler hs)) →
  (∀ v, is_function v = false → P v) →
  ∀ v, P v.
Proof.
  intros Hfun Hengine Hother. fix IH 1. intros v.
  destruct v; try (apply Hother; reflexivity).
  - apply Hfun.
  - apply Hengine. induction returnHandlers as [| h hs IHhs]; constructor; auto.
Qed.

(** ** The store *)

Lemma cell_set_cell_eq w l o : cell (set_cell w l o) l = o.
Proof. unfold cell, set_cell. simpl. by rewrite lookup_insert_eq. Qed.

Lemma cell_set_cell_ne w l l' o : l ≠ l' → cell (set_cell w l o) l' = cell w l'.
Proof. intros Hne. unfold cell, set_cell. simpl. by rewrite lookup_insert_ne. Qed.

Lemma cell_log w e l : cell (log w e) l = cell w l.
Proof. reflexivity. Qed.

Lemma heap_set_cell_ne w l l' o : l ≠ l' → heap (set_cell w l o) !! l' = heap w !! l'.
Proof. intros Hne. simpl. by rewrite lookup_insert_ne. Qed.

Lemma trace_set_prop w l k v : trace (set_prop w l k v) = trace w.
Proof. reflexivity. Qed.

Lemma trace_delete_prop w l k : trace (delete_prop w l k) = trace w.
Proof. reflexivity. Qed.

Lemma has_prop_insert (o : obj) k v : has_prop (<[k := v]> o) k = true.
Proof. unfold has_prop. apply bool_decide_eq_true. rewrite lookup_insert_eq. eauto. Qed.

Lemma has_prop_delete (o : obj) k : has_prop (delete k o) k = false.
Proof.
  unfold has_prop. apply bool_decide_eq_false. rewrite lookup_delete_eq.
  intros [x Hx]. discriminate.
Qed.

Lemma has_prop_insert_ne (o : obj) k k' v : k ≠ k' → has_prop (<[k := v]> o) k' = has_prop o k'.
Proof. intros Hne. unfold has_prop. by rewrite lookup_insert_ne. Qed.

Lemma prop_insert (o : obj) k v : prop (<[k := v]> o) k = v.
Proof. unfold prop. by rewrite lookup_insert_eq. Qed.

Lemma prop_insert_ne (o : obj) k k' v : k ≠ k' → prop (<[k := v]> o) k' = prop o k'.
Proof. intros Hne. unfold prop. by rewrite lookup_insert_ne. Qed.

Lemma prop_delete_ne (o : obj) k k' : k ≠ k' → prop (delete k o) k' = prop o k'.
Proof. intros Hne. unfold prop. by rewrite lookup_delete_ne. Qed.

Lemma has_prop_lookup (o : obj) k v : o !! k = Some v → has_prop o k = true.
Proof. intros Hk. unfold has_prop. apply bool_decide_eq_true. eauto. Qed.

Lemma prop_lookup (o : obj) k v : o !! k = Some v → prop o k = v.
Proof. intros Hk. unfold prop. by rewrite Hk. Qed.

Lemma truthy_prop_has_prop (o : obj) k : truthy (prop o k) = true → has_prop o k = true.
Proof.
  unfold prop, has_prop. intros Ht. apply bool_decide_eq_true.
  destruct (o !! k); [eauto | discriminate].
Qed.

Lemma alloc_fresh w o l w' : alloc w o = (l, w') → heap w !! l = None.
Proof.
  unfold alloc. intros [= <- <-]. apply not_elem_of_dom. apply is_fresh.
Qed.

Lemma alloc_cell w o l w' : alloc w o = (l, w') → cell w' l = o.
Proof. unfold alloc. intros [= <- <-]. apply cell_set_cell_eq. Qed.

Lemma alloc_trace w o l w' : alloc w o = (l, w') → trace w' = trace w.
Proof. unfold alloc. by intros [= <- <-]. Qed.

(** ** Frame: the engine writes only to the request and response it works on *)

Lemma frame_refl req res w : frame req res w w.
Proof. by split. Qed.

Lemma frame_trans req res w1 w2 w3 :
  frame req res w1 w2 → frame req res w2 w3 → frame req res w1 w3.
Proof.
  intros [H12 G12] [H23 G23]. split.
  - intros l Hreq Hres. rewrite H23, H12; auto.
  - auto.
Qed.

Lemma frame_set_cell req res tg o w :
  frame req res w (set_cell w (target_loc req res tg) o).
Proof.
  split.
  - intros l Hreq Hres. apply heap_set_cell_ne. destruct tg; simpl; congruence.
  - intros l Hl. simpl. destruct (decide (target_loc req res tg = l)) as [-> | Hne].
    + rewrite lookup_insert_eq. eauto.
    + by rewrite lookup_insert_ne.
Qed.

Lemma frame_set_prop req res tg k v w :
  frame req res w (set_prop w (target_loc req res tg) k v).
Proof. apply frame_set_cell. Qed.

Lemma frame_delete_prop req res tg k w :
  frame req res w (delete_prop w (target_loc req res tg) k).
Proof. apply frame_set_cell. Qed.

Lemma frame_log req res w e : frame req res w (log w e).
Proof. by split. Qed.

Lemma tw_resolve r t : tw (resolve r t) = tw t.
Proof. unfold resolve. by destruct (settled t). Qed.

Lemma frame_end_ req res err t : frame req res (tw t) (tw (end_ res err t)).
Proof.
  unfold end_. rewrite tw_resolve. case (truthy _); simpl.
  - apply (frame_set_prop req res Res).
  - apply frame_refl.
Qed.

Lemma frame_next_ req res h t : frame req res (tw t) (tw (next_ res h t)).
Proof.
  unfold next_. case (truthy (prop _ _)); [apply frame_end_ |].
  rewrite tw_resolve. case (truthy h); [| apply frame_refl].
  unfold returnHandlers_push; simpl. case (negb _); [apply frame_end_ | apply frame_refl].
Qed.

Lemma frame_run_script req res s : ∀ t, frame req res (tw t) (tw (run_script req res s t)).
Proof.
  induction s as [| a s IH]; intros t; simpl; [apply frame_refl |].
  destruct a; try (eapply frame_trans; [| apply IH]); simpl.
  - apply frame_set_prop.
  - apply frame_delete_prop.
  - apply frame_next_.
  - apply frame_end_.
  - apply frame_end_.
Qed.

Lemma fst_settle r p : (settle r p).1 = p.1.
Proof. unfold settle. by destruct p.2. Qed.

Lemma fst_callback err p : (callback err p).1 = p.1.
Proof. apply fst_settle. Qed.

Lemma frame_run_hscript req res s :
  ∀ p, frame req res p.1 (run_hscript req res s p).1.
Proof.
  induction s as [| a s IH]; intros p; simpl; [apply frame_refl |].
  destruct a; try (eapply frame_trans; [| apply IH]); simpl.
  - apply frame_set_prop.
  - apply frame_delete_prop.
  - rewrite fst_callback. apply frame_refl.
  - rewrite fst_settle. apply frame_refl.
Qed.

Lemma frame_for_handlers req res call hs :
  Forall (λ h, ∀ w, frame req res w (call h w).1) hs →
  ∀ w, frame req res w (for_handlers call hs w).1.
Proof.
  induction 1 as [| h hs Hh _ IH]; intros w; simpl; [apply frame_refl |].
  specialize (Hh w). destruct (call h w) as [w' [[] | e |]]; simpl in *; auto.
  eapply frame_trans; [exact Hh | apply IH].
Qed.

Lemma frame_call_handler req res h : ∀ w, frame req res w (call_handler req res h w).1.
Proof.
  induction h as [body | hs IH | v Hv] using handler_nested_ind; intros w.
  - simpl. eapply frame_trans; [apply frame_log |].
    apply (frame_run_hscript req res body (log w _, Pending)).
  - simpl.
    pose proof (frame_for_handlers req res _ hs IH (log w (EvHandler (VEngineHandler hs)))) as Hf.
    destruct (for_handlers _ hs _) as [w' [[] | e |]]; simpl in *;
      rewrite ?fst_callback; simpl; auto.
  - destruct v; try discriminate; apply frame_refl.
Qed.

Lemma frame__runReturnHandlers req res hs w :
  frame req res w (_runReturnHandlers req res hs w).1.
Proof.
  apply frame_for_handlers. apply Forall_forall. intros h _. apply frame_call_handler.
Qed.

Lemma frame_for_middleware req res run stack :
  Forall (λ m, ∀ w hs, frame req res w (tw (run m w hs))) stack →
  ∀ w hs error isComplete,
    frame req res w (for_middleware run stack w hs error isComplete).1.
Proof.
  induction 1 as [| m stack Hm _ IH]; intros w hs error isComplete; simpl;
    [apply frame_refl |].
  specialize (Hm w hs). destruct (settled (run m w hs)) as [[error' []] |]; simpl; auto.
  eapply frame_trans; [exact Hm | apply IH].
Qed.

Lemma fst_reverse_handlers r : (reverse_handlers r).1 = r.1.
Proof. by destruct r as [w [[[e c] hs] |]]. Qed.

Lemma frame__runMiddleware req res m :
  ∀ w hs, frame req res w (tw (_runMiddleware req res m w hs)).
Proof.
  induction m as [f | stack IH] using middleware_nested_ind; intros w hs.
  - simpl. eapply frame_trans; [apply frame_log |].
    apply (frame_run_script req res _ (Turn (log w _) hs None)).
  - simpl.
    pose proof (frame_for_middleware req res _ stack IH
                  (log w (EvMiddleware (MEngine stack))) [] VNull false) as Hloop.
    rewrite <- fst_reverse_handlers in Hloop.
    destruct (reverse_handlers _) as [w1 [[[e c] ihs] |]]; simpl in Hloop; [| exact Hloop].
    destruct c.
    + pose proof (frame__runReturnHandlers req res ihs w1) as Hrh.
      destruct (_runReturnHandlers req res ihs w1) as [w2 [[] | e' |]]; simpl in Hrh.
      * eapply frame_trans; [| apply frame_end_]. simpl. eapply frame_trans; eauto.
      * eapply frame_trans; [| apply frame_end_]. simpl. eapply frame_trans; eauto.
      * simpl. eapply frame_trans; eauto.
    + eapply frame_trans; [| apply frame_next_]. exact Hloop.
Qed.

Lemma frame__runAllMiddleware req res stack w :
  frame req res w (_runAllMiddleware req res stack w).1.
Proof.
  unfold _runAllMiddleware. rewrite fst_reverse_handlers.
  apply frame_for_middleware. apply Forall_forall. intros m _. apply frame__runMiddleware.
Qed.

Lemma frame__processRequest stack req res w :
  frame req res w (_processRequest stack req res w).1.
Proof.
  unfold _processRequest. pose proof (frame__runAllMiddleware req res stack w) as Hall.
  destruct (_runAllMiddleware req res stack w) as [w1 [[[e c] hs] |]]; simpl in Hall; auto.
  destruct (_checkForCompletion w1 req res c); [exact Hall |].
  pose proof (frame__runReturnHandlers req res hs w1) as Hrh.
  destruct (_runReturnHandlers req res hs w1) as [w2 [[] | e' |]]; simpl in Hrh;
    try destruct (truthy e); simpl; eapply frame_trans; eauto.
Qed.

Lemma frame_deliver req res r : frame req res r.1 (deliver res r).1.
Proof.
  destruct r as [w [[] | e |]]; simpl; try apply frame_refl.
  destruct (truthy e); [| apply frame_refl].
  destruct (negb _).
  - eapply frame_trans; [apply (frame_delete_prop req res Res) |].
    apply (frame_set_prop req res Res).
  - apply (frame_delete_prop req res Res).
Qed.

Lemma preserved_refl w : preserved w w.
Proof. by intros l _. Qed.

Lemma preserved_trans w1 w2 w3 : preserved w1 w2 → preserved w2 w3 → preserved w1 w3.
Proof.
  intros H12 H23 l Hl. rewrite H23, H12; auto. rewrite H12; auto.
Qed.

Lemma preserved_alloc w o l w' : alloc w o = (l, w') → preserved w w'.
Proof.
  intros Halloc l' [x Hx]. pose proof (alloc_fresh _ _ _ _ Halloc) as Hfresh.
  unfold alloc in Halloc. injection Halloc as <- <-.
  apply heap_set_cell_ne. congruence.
Qed.

Lemma new_request_response_spec w callerReq req res w2 :
  new_request_response w callerReq = (req, res, w2) →
  heap w !! req = None ∧ heap w !! res = None ∧ req ≠ res ∧ preserved w w2 ∧
  cell w2 req = spread w callerReq ∧
  cell w2 res = <["id" := prop (spread w callerReq) "id"]>
                  (<["jsonrpc" := prop (spread w callerReq) "jsonrpc"]> ∅) ∧
  trace w2 = trace w ∧
  is_Some (heap w2 !! res).
Proof.
  unfold new_request_response.
  destruct (alloc w (spread w callerReq)) as [req0 w1] eqn:Hreq.
  destruct (alloc w1 _) as [res0 w2'] eqn:Hres. intros [= <- <- <-].
  pose proof (alloc_fresh _ _ _ _ Hreq) as Hfreq.
  pose proof (alloc_fresh _ _ _ _ Hres) as Hfres.
  pose proof (alloc_cell _ _ _ _ Hreq) as Hcreq.
  pose proof (alloc_cell _ _ _ _ Hres) as Hcres.
  assert (Hne : req0 ≠ res0).
  { intros ->. unfold alloc in Hreq. injection Hreq as Hl <-.
    simpl in Hfres. rewrite <- Hl, lookup_insert_eq in Hfres. discriminate. }
  assert (Hold : heap w !! res0 = None).
  { destruct (heap w !! res0) eqn:E; [| done].
    rewrite <- (preserved_alloc _ _ _ _ Hreq res0), Hfres in E; [done | eauto]. }
  repeat split; auto.
  - eapply preserved_trans; eapply preserved_alloc; eauto.
  - rewrite <- Hcreq. unfold alloc in Hres. injection Hres as <- <-.
    apply cell_set_cell_ne. congruence.
  - rewrite Hcres, Hcreq. reflexivity.
  - rewrite (alloc_trace _ _ _ _ Hres). apply (alloc_trace _ _ _ _ Hreq).
  - unfold alloc in Hres. injection Hres as <- <-. simpl. rewrite lookup_insert_eq. eauto.
Qed.

Lemma frame_preserved req res w w2 w3 :
  heap w !! req = None → heap w !! res = None →
  preserved w w2 → frame req res w2 w3 → preserved w w3.
Proof.
  intros Hreq Hres Hpres [Hframe _] l [x Hx].
  rewrite Hframe by congruence. apply Hpres. eauto.
Qed.

Lemma preserved__handle stack callerReq w : preserved w (_handle stack callerReq w).1.
Proof.
  unfold _handle.
  destruct (negb (truthy callerReq) || isArray callerReq || negb (is_object_type callerReq)).
  { destruct (alloc w _) as [l w1] eqn:Halloc. simpl. eapply preserved_alloc; eauto. }
  destruct (negb (is_string _)).
  { destruct (alloc w _) as [l w1] eqn:Halloc. simpl. eapply preserved_alloc; eauto. }
  destruct (new_request_response w callerReq) as [[req res] w2] eqn:Hnew.
  destruct (new_request_response_spec _ _ _ _ _ Hnew) as (Hreq & Hres & _ & Hpres & _).
  apply (frame_preserved req res w w2); auto.
  eapply frame_trans; [apply frame__processRequest | apply frame_deliver].
Qed.

Lemma preserved__promiseHandle stack req w : preserved w (_promiseHandle stack req w).1.
Proof.
  unfold _promiseHandle. pose proof (preserved__handle stack req w) as Hp.
  by destruct (_handle stack req w) as [w' [[e r] |]].
Qed.

Lemma preserved_map_promiseHandle stack reqs :
  ∀ w, preserved w (map_promiseHandle stack reqs w).1.
Proof.
  induction reqs as [| req reqs IH]; intros w; simpl; [apply preserved_refl |].
  pose proof (preserved__promiseHandle stack req w) as H1.
  destruct (_promiseHandle stack req w) as [w1 p]. specialize (IH w1).
  destruct (map_promiseHandle stack reqs w1) as [w2 ps]. simpl in *.
  eapply preserved_trans; eauto.
Qed.

Lemma preserved_handle stack req cb w : preserved w (handle stack req cb w).1.
Proof.
  unfold handle.
  assert (Hbatch : ∀ reqs, preserved w (_handleBatch stack reqs w).1).
  { intros reqs. unfold _handleBatch.
    pose proof (preserved_map_promiseHandle stack reqs w) as Hp.
    by destruct (map_promiseHandle stack reqs w). }
  assert (Hsingle : preserved w
    (if cb then
       match _handle stack req w with
       | (w', Some (error, res)) => (w', Called error res)
       | (w', None) => (w', NotCalled)
       end
     else let '(w', p) := _promiseHandle stack req w in (w', Promised p)).1).
  { destruct cb.
    - pose proof (preserved__handle stack req w) as Hp.
      by destruct (_handle stack req w) as [w' [[e r] |]].
    - pose proof (preserved__promiseHandle stack req w) as Hp.
      by destruct (_promiseHandle stack req w). }
  destruct req; try exact Hsingle.
  specialize (Hbatch elems). by destruct (_handleBatch stack elems w).
Qed.

(** ** The trace: which middleware and which handlers are invoked *)

Lemma trace_end_ res err t : trace (tw (end_ res err t)) = trace (tw t).
Proof. unfold end_. rewrite tw_resolve. by case (truthy _). Qed.

Lemma trace_next_ res h t : trace (tw (next_ res h t)) = trace (tw t).
Proof.
  unfold next_. case (truthy (prop _ _)); [apply trace_end_ |].
  rewrite tw_resolve. case (truthy h); [| done].
  unfold returnHandlers_push; simpl. case (negb _); [apply trace_end_ | done].
Qed.

Lemma trace_run_script req res s : ∀ t, trace (tw (run_script req res s t)) = trace (tw t).
Proof.
  induction s as [| a s IH]; intros t; simpl; [done |].
  destruct a; rewrite ?IH; simpl; auto using trace_end_, trace_next_.
Qed.

Lemma trace_run_hscript req res s : ∀ p, trace (run_hscript req res s p).1 = trace p.1.
Proof.
  induction s as [| a s IH]; intros p; simpl; [done |].
  destruct a; rewrite ?IH; simpl; rewrite ?fst_callback, ?fst_settle; auto.
Qed.

Lemma middleware_events_app tr1 tr2 :
  middleware_events (tr1 ++ tr2) = middleware_events tr1 ++ middleware_events tr2.
Proof. apply omap_app. Qed.

Lemma handler_events_app tr1 tr2 :
  handler_events (tr1 ++ tr2) = handler_events tr1 ++ handler_events tr2.
Proof. apply omap_app. Qed.

Lemma middleware_events_handlers hs : middleware_events (map EvHandler hs) = [].
Proof. induction hs; simpl; auto. Qed.

Lemma handler_events_handlers hs : handler_events (map EvHandler hs) = hs.
Proof. induction hs; simpl; f_equal; auto. Qed.

(** The handlers run by a call are called in order, each at most once. *)
Lemma call_handler_trace req res h :
  ∀ w, ∃ ran, trace (call_handler req res h w).1 = trace w ++ map EvHandler ran ∧
              ran `sublist_of` calls h.
Proof.
  induction h as [body | hs IH | v Hv] using handler_nested_ind; intros w.
  - exists [VFun body]. simpl. rewrite trace_run_hscript. done.
  - simpl.
    assert (Hloop : ∀ w0, ∃ ran,
      trace (for_handlers (call_handler req res) hs w0).1 = trace w0 ++ map EvHandler ran ∧
      ran `sublist_of` flat_map calls hs).
    { induction IH as [| h hs Hh _ IHhs]; intros w0; simpl.
      - exists []. by rewrite app_nil_r.
      - destruct (Hh w0) as (ran1 & Htr1 & Hsub1).
        destruct (call_handler req res h w0) as [w1 [[] | e |]]; simpl in *.
        + destruct (IHhs w1) as (ran2 & Htr2 & Hsub2).
          exists (ran1 ++ ran2). rewrite Htr2, Htr1, map_app, app_assoc.
          split; [done | by apply sublist_app].
        + exists ran1. split; [done |]. by apply sublist_inserts_r.
        + exists ran1. split; [done |]. by apply sublist_inserts_r. }
    destruct (Hloop (log w (EvHandler (VEngineHandler hs)))) as (ran & Htr & Hsub).
    exists (VEngineHandler hs :: ran).
    split; [| by apply sublist_skip].
    destruct (for_handlers _ hs _) as [w' [[] | e |]]; simpl in *;
      rewrite ?fst_callback; simpl; rewrite Htr, <- app_assoc; done.
  - exists []. split; [| apply sublist_nil_l].
    destruct v; try discriminate; simpl; by rewrite app_nil_r.
Qed.

Lemma _runReturnHandlers_trace req res hs :
  ∀ w, ∃ ran, trace (_runReturnHandlers req res hs w).1 = trace w ++ map EvHandler ran ∧
              ran `sublist_of` flat_map calls hs.
Proof.
  unfold _runReturnHandlers. induction hs as [| h hs IH]; intros w; simpl.
  - exists []. by rewrite app_nil_r.
  - destruct (call_handler_trace req res h w) as (ran1 & Htr1 & Hsub1).
    destruct (call_handler req res h w) as [w1 [[] | e |]]; simpl in *.
    + destruct (IH w1) as (ran2 & Htr2 & Hsub2).
      exists (ran1 ++ ran2). rewrite Htr2, Htr1, map_app, app_assoc.
      split; [done | by apply sublist_app].
    + exists ran1. split; [done |]. by apply sublist_inserts_r.
    + exists ran1. split; [done |]. by apply sublist_inserts_r.
Qed.

(** Plain function handlers are called one after the other until one fails
    or stays pending; all of them are called when the run is fulfilled. *)
Lemma _runReturnHandlers_plain req res hs :
  Forall plain_function hs →
  ∀ w, ∃ n, trace (_runReturnHandlers req res hs w).1 = trace w ++ map EvHandler (take n hs) ∧
            ((_runReturnHandlers req res hs w).2 = Fulfilled tt → n = length hs).
Proof.
  unfold _runReturnHandlers. induction 1 as [| h hs [body ->] _ IH]; intros w.
  - exists 0. simpl. by rewrite app_nil_r.
  - simpl.
    pose proof (trace_run_hscript req res body (log w (EvHandler (VFun body)), Pending)) as Htr.
    destruct (run_hscript req res body _) as [w1 [[] | e |]]; simpl in *.
    + destruct (IH w1) as (n & Hn & Hall). exists (S n). simpl.
      rewrite Hn, Htr, <- app_assoc. split; [done |]. intros Hf. f_equal. auto.
    + exists 1. simpl. rewrite Htr. split; [| done]. by destruct hs.
    + exists 1. simpl. rewrite Htr. split; [| done]. by destruct hs.
Qed.

(** Return handlers never invoke a middleware. *)
Lemma _runReturnHandlers_no_middleware req res hs w :
  middleware_events (trace (_runReturnHandlers req res hs w).1) = middleware_events (trace w).
Proof.
  destruct (_runReturnHandlers_trace req res hs w) as (ran & -> & _).
  by rewrite middleware_events_app, middleware_events_handlers, app_nil_r.
Qed.

(** ** Turns made of writes followed by one signal *)

Lemma run_script_writes req res s :
  Forall (λ a, is_write a = true) s →
  ∀ t s', run_script req res (s ++ s') t = run_script req res s' (run_script req res s t).
Proof.
  induction 1 as [| a s Ha _ IH]; intros t s'; simpl; [done |].
  destruct a; try discriminate; apply IH.
Qed.

Lemma run_script_writes_state req res s :
  Forall (λ a, is_write a = true) s →
  ∀ t, handlers (run_script req res s t) = handlers t ∧
       settled (run_script req res s t) = settled t.
Proof.
  induction 1 as [| a s Ha _ IH]; intros t; simpl; [done |].
  destruct a; try discriminate; edestruct IH as [-> ->]; done.
Qed.

Lemma end__truthy res e t :
  truthy e = true → settled t = None →
  end_ res e t = Turn (set_prop (tw t) res "error" (serializeError e)) (handlers t) (Some (e, true)).
Proof.
  intros He Hs. unfold end_, js_or. rewrite He. simpl. rewrite He.
  unfold resolve, on_world. simpl. by rewrite Hs.
Qed.

Lemma cell_set_prop_eq w l k v : cell (set_prop w l k v) l = <[k := v]> (cell w l).
Proof. apply cell_set_cell_eq. Qed.

Lemma cell_delete_prop_eq w l k : cell (delete_prop w l k) l = delete k (cell w l).
Proof. apply cell_set_cell_eq. Qed.

Lemma cell_set_prop_ne w l l' k v : l ≠ l' → cell (set_prop w l k v) l' = cell w l'.
Proof. apply cell_set_cell_ne. Qed.

Lemma cell_delete_prop_ne w l l' k : l ≠ l' → cell (delete_prop w l k) l' = cell w l'.
Proof. apply cell_set_cell_ne. Qed.

Lemma prop_set_prop w l k v : prop (cell (set_prop w l k v) l) k = v.
Proof. rewrite cell_set_prop_eq. apply prop_insert. Qed.

(** The loop over a stack whose first part only calls [next]. *)
Lemma for_middleware_app run pre rest :
  ∀ w hs error isComplete w1 e1 hs1,
    for_middleware run pre w hs error isComplete = (w1, Some (e1, false, hs1)) →
    for_middleware run (pre ++ rest) w hs error isComplete =
    for_middleware run rest w1 hs1 e1 false.
Proof.
  induction pre as [| m pre IH]; intros w hs error isComplete w1 e1 hs1; simpl.
  - by intros [= -> -> -> ->].
  - destruct (settled (run m w hs)) as [[e' []] |]; try discriminate. apply IH.
Qed.

(** The body of the function returned by [asMiddleware], in terms of
    [_runAllMiddleware] on the inner stack. *)
Lemma _runMiddleware_engine req res stack w hs :
  _runMiddleware req res (MEngine stack) w hs =
  let t := Turn (log w (EvMiddleware (MEngine stack))) hs None in
  match _runAllMiddleware req res stack (tw t) with
  | (w1, None) => on_world (λ _, w1) t
  | (w1, Some (middlewareError, isComplete, innerHandlers)) =>
      if isComplete then
        match _runReturnHandlers req res innerHandlers w1 with
        | (w2, Fulfilled _) => end_ res middlewareError (on_world (λ _, w2) t)
        | (w2, Rejected error) => end_ res error (on_world (λ _, w2) t)
        | (w2, Pending) => on_world (λ _, w2) t
        end
      else next_ res (VEngineHandler innerHandlers) (on_world (λ _, w1) t)
  end.
Proof. reflexivity. Qed.

Lemma for_middleware_cons run m rest w hs error isComplete :
  for_middleware run (m :: rest) w hs error isComplete =
  match settled (run m w hs) with
  | None => (tw (run m w hs), None)
  | Some (error', isComplete') =>
      if isComplete'
      then (tw (run m w hs), Some (error', isComplete', handlers (run m w hs)))
      else for_middleware run rest (tw (run m w hs)) (handlers (run m w hs)) error' isComplete'
  end.
Proof. reflexivity. Qed.

(** ** C9: the caller's request object is not mutated *)

(** C9.  Dispatching a request, in callback or promise style, single or in
    a batch, leaves every object that exists before the call exactly as it
    was: in particular the caller's request object [l] holds the same
    fields and values afterwards.  What the middleware are handed is a new
    object holding a copy of the fields of [l], together with a new response
    object holding only the identifier and the version tag of the
    request. *)
Theorem C9_caller_request_not_mutated stack callerReq cb w l :
  is_Some (heap w !! l) →
  heap (handle stack callerReq cb w).1 !! l = heap w !! l ∧
  heap (_handle stack callerReq w).1 !! l = heap w !! l ∧
  (callerReq = VObj l →
   ∀ req res w2,
     new_request_response w callerReq = (req, res, w2) →
     req ≠ l ∧ res ≠ l ∧ req ≠ res ∧
     cell w2 req = cell w l ∧
     cell w2 res = <["id" := prop (cell w l) "id"]>
                     (<["jsonrpc" := prop (cell w l) "jsonrpc"]> ∅) ∧
     cell w2 l = cell w l).
Proof.
  intros Hl. split; [by apply preserved_handle |]. split; [by apply preserved__handle |].
  intros -> req res w2 Hnew.
  destruct (new_request_response_spec _ _ _ _ _ Hnew)
    as (Hreq & Hres & Hne & Hpres & Hcreq & Hcres & _).
  destruct Hl as [o Ho].
  repeat split; try done; try congruence.
  unfold cell. rewrite Hpres; eauto.
Qed.

Lemma C9_witness :
  let w := Examples.w0 in
  let l := Examples.caller in
  heap (handle [Examples.scribbler] (VObj l) false w).1 !! l = heap w !! l ∧
  heap (_handle [Examples.scribbler] (VObj l) w).1 !! l = heap w !! l ∧
  (VObj l = VObj l →
   ∀ req res w2,
     new_request_response w (VObj l) = (req, res, w2) →
     req ≠ l ∧ res ≠ l ∧ req ≠ res ∧
     cell w2 req = cell w l ∧
     cell w2 res = <["id" := prop (cell w l) "id"]>
                     (<["jsonrpc" := prop (cell w l) "jsonrpc"]> ∅) ∧
     cell w2 l = cell w l).
Proof.
  apply (C9_caller_request_not_mutated [Examples.scribbler] (VObj Examples.caller) false
           Examples.w0 Examples.caller).
  exists (Examples.request (VNum 7) (VStr "foo")). reflexivity.
Defined.

(** The working copy, on the other hand, is what the middleware mutates. *)
Example scribbler_mutates_the_copy :
  let w' := (_handle [Examples.scribbler] (VObj Examples.caller) Examples.w0).1 in
  prop (cell w' 2%positive) "method" = VStr "changed" ∧
  has_prop (cell w' 2%positive) "id" = false ∧
  prop (cell w' Examples.caller) "method" = VStr "foo".
Proof. vm_compute. done. Qed.

(** ** C3: malformed requests *)

Lemma plain_object_test v :
  negb (truthy v) || isArray v || negb (is_object_type v) = negb (plain_object v).
Proof.
  unfold plain_object. destruct (truthy v), (isArray v), (is_object_type v); reflexivity.
Qed.

(** C3.  A request that is not a plain object, or whose method is not a
    string, is answered at once: no middleware is invoked (the trace is
    unchanged, whatever the stack), and the callback receives a validation
    error together with a new response object carrying that error, no
    result, the version tag "2.0", and the identifier of the input when the
    input is a plain object, [undefined] otherwise. *)
Theorem C3_malformed_request stack callerReq w :
  well_formed w callerReq = false →
  ∃ w' error l,
    _handle stack callerReq w = (w', Some (error, VObj l)) ∧
    validation_error error ∧
    trace w' = trace w ∧
    heap w !! l = None ∧
    cell w' l =
      <["id" := if plain_object callerReq then get w callerReq "id" else VUndef]>
        (<["jsonrpc" := VStr "2.0"]> (<["error" := error]> ∅)) ∧
    get w' (VObj l) "error" = error ∧
    has_prop (cell w' l) "result" = false ∧
    get w' (VObj l) "id" = (if plain_object callerReq then get w callerReq "id" else VUndef).
Proof.
  intros Hwf. unfold well_formed in Hwf. unfold _handle, alloc. rewrite plain_object_test.
  assert (Hfresh : heap w !! fresh (dom (heap w)) = None)
    by (apply not_elem_of_dom, is_fresh).
  destruct (plain_object callerReq) eqn:Hplain; simpl in *.
  - rewrite Hwf. cbn [negb].
    eexists _, (SerializableError method_must_be_string), _. split; [reflexivity |].
    rewrite cell_set_cell_eq. repeat split; auto; by right.
  - eexists _, (SerializableError request_must_be_plain_object), _. split; [reflexivity |].
    rewrite cell_set_cell_eq. repeat split; auto.
    by left.
Qed.

Lemma C3_witness :
  ∃ w' error l,
    _handle [Examples.fixed_result (VNum 42)] (VArr []) Examples.w0 = (w', Some (error, VObj l)) ∧
    validation_error error ∧
    trace w' = trace Examples.w0 ∧
    heap Examples.w0 !! l = None ∧
    cell w' l =
      <["id" := if plain_object (VArr []) then get Examples.w0 (VArr []) "id" else VUndef]>
        (<["jsonrpc" := VStr "2.0"]> (<["error" := error]> ∅)) ∧
    get w' (VObj l) "error" = error ∧
    has_prop (cell w' l) "result" = false ∧
    get w' (VObj l) "id" =
      (if plain_object (VArr []) then get Examples.w0 (VArr []) "id" else VUndef).
Proof.
  apply (C3_malformed_request [Examples.fixed_result (VNum 42)] (VArr []) Examples.w0).
  reflexivity.
Defined.

(** ** C5: protocol violations *)

Lemma _handle_well_formed stack callerReq w :
  well_formed w callerReq = true →
  _handle stack callerReq w =
  let '(req, res, w2) := new_request_response w callerReq in
  deliver res (_processRequest stack req res w2).
Proof.
  unfold well_formed, _handle. rewrite plain_object_test.
  intros [-> ->]%andb_true_iff. reflexivity.
Qed.

Lemma _handle_malformed_trace stack callerReq w :
  well_formed w callerReq = false → trace (_handle stack callerReq w).1 = trace w.
Proof.
  unfold well_formed, _handle. rewrite plain_object_test.
  destruct (plain_object callerReq); simpl; [intros -> |]; reflexivity.
Qed.

Lemma _handle_malformed stack callerReq w :
  well_formed w callerReq = false →
  ∃ w' error l,
    _handle stack callerReq w = (w', Some (error, VObj l)) ∧
    truthy error = true ∧
    prop (cell w' l) "error" = error ∧
    has_prop (cell w' l) "result" = false.
Proof.
  unfold well_formed, _handle, alloc. rewrite plain_object_test.
  destruct (plain_object callerReq); simpl; [intros -> |]; simpl;
    eexists _, _, _; (split; [reflexivity |]); rewrite cell_set_cell_eq; done.
Qed.

(** What [deliver] does with an error thrown by [_processRequest]. *)
Lemma deliver_rejected res w e :
  truthy e = true →
  ∃ w', deliver res (w, Rejected e) = (w', Some (e, VObj res)) ∧
        has_prop (cell w' res) "result" = false ∧
        prop (cell w' res) "error" = js_or (prop (cell w res) "error") (serializeError e) ∧
        truthy (prop (cell w' res) "error") = true ∧
        trace w' = trace w.
Proof.
  intros He. simpl. rewrite He. rewrite cell_delete_prop_eq.
  rewrite (prop_delete_ne _ "result" "error") by done. unfold js_or.
  destruct (truthy (prop (cell w res) "error")) eqn:Herr; simpl; eexists; (split; [reflexivity |]).
  - rewrite cell_delete_prop_eq, (prop_delete_ne _ "result" "error") by done.
    repeat split; auto using has_prop_delete.
  - rewrite cell_set_prop_eq, cell_delete_prop_eq, prop_insert.
    rewrite (has_prop_insert_ne _ "error" "result") by done.
    repeat split; auto using has_prop_delete.
Qed.

(** C5.  For a well-formed request, if the stack halts with the response
    carrying neither a result nor an error (as when a middleware calls
    [end()] on an empty response), or halts without any middleware having
    ended the request, then the callback receives a protocol violation, no
    return handler runs, and the response delivered is an error response:
    it has no result, and its error is the normalized protocol violation
    (unless the response already carried an error, which is then kept). *)
Theorem C5_protocol_violation stack callerReq w req res w2 w3 err isComplete hs :
  well_formed w callerReq = true →
  new_request_response w callerReq = (req, res, w2) →
  _runAllMiddleware req res stack w2 = (w3, Some (err, isComplete, hs)) →
  (has_prop (cell w3 res) "result" = false ∧ has_prop (cell w3 res) "error" = false) ∨
  isComplete = false →
  ∃ w4 e,
    _handle stack callerReq w = (w4, Some (e, VObj res)) ∧
    protocol_violation e ∧
    has_prop (cell w4 res) "result" = false ∧
    prop (cell w4 res) "error" = js_or (prop (cell w3 res) "error") (serializeError e) ∧
    truthy (prop (cell w4 res) "error") = true ∧
    trace w4 = trace w3 ∧
    (has_prop (cell w3 res) "error" = false → prop (cell w4 res) "error" = serializeError e).
Proof.
  intros Hwf Hnew Hall Hcase.
  rewrite (_handle_well_formed _ _ _ Hwf), Hnew. unfold _processRequest. rewrite Hall.
  assert (Hcheck : ∃ e, _checkForCompletion w3 req res isComplete = Some e ∧ protocol_violation e).
  { unfold _checkForCompletion.
    destruct Hcase as [[-> ->] | ->]; simpl.
    - eexists. split; [reflexivity | by left].
    - destruct (negb _ && negb _); eexists; (split; [reflexivity |]); [by left | by right]. }
  destruct Hcheck as (e & -> & Hviol).
  assert (He : truthy e = true) by (by destruct Hviol as [-> | ->]).
  destruct (deliver_rejected res w3 e He) as (w4 & Hdel & Hres & Herr & Htr & Htrace).
  exists w4, e. repeat split; auto.
  intros Hno. rewrite Herr. unfold js_or.
  destruct (truthy (prop (cell w3 res) "error")) eqn:E; [| done].
  apply truthy_prop_has_prop in E. congruence.
Qed.

Lemma C5_witness :
  ∃ w4 e,
    _handle [Examples.ends_with VUndef] (VObj Examples.caller) Examples.w0
      = (w4, Some (e, VObj Examples.work_res)) ∧
    protocol_violation e ∧
    has_prop (cell w4 Examples.work_res) "result" = false ∧
    prop (cell w4 Examples.work_res) "error" =
      js_or (prop (cell (log Examples.work (EvMiddleware (Examples.ends_with VUndef)))
                     Examples.work_res) "error") (serializeError e) ∧
    truthy (prop (cell w4 Examples.work_res) "error") = true ∧
    trace w4 = trace (log Examples.work (EvMiddleware (Examples.ends_with VUndef))) ∧
    (has_prop (cell (log Examples.work (EvMiddleware (Examples.ends_with VUndef)))
                 Examples.work_res) "error" = false →
     prop (cell w4 Examples.work_res) "error" = serializeError e).
Proof.
  apply (C5_protocol_violation [Examples.ends_with VUndef] (VObj Examples.caller) Examples.w0
           Examples.work_req Examples.work_res Examples.work
           (log Examples.work (EvMiddleware (Examples.ends_with VUndef))) VUndef true []).
  - reflexivity.
  - reflexivity.
  - reflexivity.
  - left. split; reflexivity.
Defined.

(** The two ways of violating the protocol, run on the example request. *)
Example end_on_empty_response :
  let r := _handle [Examples.ends_with VUndef] (VObj Examples.caller) Examples.w0 in
  r.2 = Some (SerializableError no_result_or_error, VObj Examples.work_res) ∧
  prop (cell r.1 Examples.work_res) "error"
  = serializeError (SerializableError no_result_or_error).
Proof. vm_compute. done. Qed.

Example nothing_ended_request :
  let stack := [MFun (λ _ _, [ASet Res "result" (VNum 1); ANext VUndef])] in
  let r := _handle stack (VObj Examples.caller) Examples.w0 in
  r.2 = Some (SerializableError nothing_ended, VObj Examples.work_res) ∧
  prop (cell r.1 Examples.work_res) "error" = serializeError (SerializableError nothing_ended) ∧
  has_prop (cell r.1 Examples.work_res) "result" = false.
Proof. vm_compute. done. Qed.

(** ** Disciplines: the collected handlers obey the discipline of the stack *)

Lemma forallb_rev {A} (f : A → bool) l : forallb f (rev l) = forallb f l.
Proof.
  induction l as [| x l IH]; simpl; [done |].
  rewrite forallb_app, IH. simpl. rewrite andb_true_r. apply andb_comm.
Qed.

Lemma stack_ok_engine S H stack : middleware_ok S H (MEngine stack) ↔ stack_ok S H stack.
Proof.
  unfold stack_ok. simpl. induction stack as [| m stack IH]; simpl.
  - split; [constructor | done].
  - rewrite Forall_cons. tauto.
Qed.

Lemma handlers_resolve r t : handlers (resolve r t) = handlers t.
Proof. unfold resolve. by destruct (settled t). Qed.

Lemma handlers_end_ res err t : handlers (end_ res err t) = handlers t.
Proof. unfold end_. rewrite handlers_resolve. by destruct (truthy _). Qed.

Section DisciplineInvariant.
Variable S : list action → bool.
Variable H : list haction → bool.

Lemma ok_next_ res h t :
  handler_ok H h = true →
  forallb (handler_ok H) (handlers t) = true →
  forallb (handler_ok H) (handlers (next_ res h t)) = true.
Proof.
  intros Hh Ht. unfold next_. destruct (truthy (prop _ _)); [by rewrite handlers_end_ |].
  rewrite handlers_resolve. destruct (truthy h); [| done].
  unfold returnHandlers_push; simpl. rewrite forallb_app. simpl. rewrite Hh.
  destruct (negb _); rewrite ?handlers_end_, Ht; done.
Qed.

Lemma ok_run_script req res s :
  forallb (action_ok H) s = true →
  ∀ t, forallb (handler_ok H) (handlers t) = true →
       forallb (handler_ok H) (handlers (run_script req res s t)) = true.
Proof.
  induction s as [| a s IH]; simpl; [done |].
  intros [Ha Hs]%andb_true_iff t Ht.
  destruct a; try (apply IH; [done |]); simpl; auto using ok_next_.
  - by rewrite handlers_end_.
  - by rewrite handlers_end_.
Qed.

Lemma ok_for_middleware run stack :
  Forall (λ m, ∀ w hs, forallb (handler_ok H) hs = true →
                       forallb (handler_ok H) (handlers (run m w hs)) = true) stack →
  ∀ w hs error isComplete w' error' isComplete' hs',
    forallb (handler_ok H) hs = true →
    for_middleware run stack w hs error isComplete = (w', Some (error', isComplete', hs')) →
    forallb (handler_ok H) hs' = true.
Proof.
  induction 1 as [| m stack Hm _ IH]; intros w hs error isComplete w' error' isComplete' hs' Hhs;
    simpl.
  - by intros [= _ _ _ <-].
  - specialize (Hm w hs Hhs).
    destruct (settled (run m w hs)) as [[e []] |]; try discriminate.
    + by intros [= _ _ _ <-].
    + apply IH. exact Hm.
Qed.

Lemma ok__runMiddleware req res m :
  middleware_ok S H m →
  ∀ w hs, forallb (handler_ok H) hs = true →
          forallb (handler_ok H) (handlers (_runMiddleware req res m w hs)) = true.
Proof.
  induction m as [f | stack IH] using middleware_nested_ind; intros Hm w hs Hhs.
  - simpl. simpl in Hm. specialize (Hm (cell w req) (cell w res)).
    apply andb_true_iff in Hm as [_ Hm]. by apply ok_run_script.
  - apply stack_ok_engine in Hm. unfold stack_ok in Hm. simpl.
    assert (Hstack : Forall (λ m, ∀ w hs, forallb (handler_ok H) hs = true →
              forallb (handler_ok H) (handlers (_runMiddleware req res m w hs)) = true) stack).
    { apply Forall_forall. intros m Hin.
      rewrite Forall_forall in IH, Hm. apply IH; auto. }
    pose proof (ok_for_middleware _ stack Hstack
                  (log w (EvMiddleware (MEngine stack))) [] VNull false) as Hloop.
    destruct (for_middleware _ stack _ [] VNull false) as [w1 [[[e c] ihs] |]]; simpl; [| done].
    specialize (Hloop _ _ _ _ eq_refl eq_refl).
    destruct c.
    + destruct (_runReturnHandlers req res (rev ihs) w1) as [w2 [[] | e' |]];
        rewrite ?handlers_end_; done.
    + apply ok_next_; [| done]. simpl. by rewrite forallb_rev.
Qed.

Lemma ok__runAllMiddleware req res stack w w' error isComplete hs :
  stack_ok S H stack →
  _runAllMiddleware req res stack w = (w', Some (error, isComplete, hs)) →
  forallb (handler_ok H) hs = true.
Proof.
  intros Hstack. unfold _runAllMiddleware.
  destruct (for_middleware _ stack w [] VNull false) as [w1 [[[e c] raw] |]] eqn:Hloop;
    simpl; [| done].
  intros [= _ _ _ <-]. rewrite forallb_rev.
  eapply ok_for_middleware; [| | exact Hloop]; [| done].
  apply Forall_forall. intros m Hin. unfold stack_ok in Hstack.
  rewrite Forall_forall in Hstack. apply ok__runMiddleware; auto.
Qed.

End DisciplineInvariant.

(** ** Liveness: a responsive stack leaves nothing pending *)

Lemma settled_resolve r t : settled (resolve r t) ≠ None.
Proof. unfold resolve. destruct (settled t) eqn:E; simpl; congruence. Qed.

Lemma settled_end_ res err t : settled (end_ res err t) ≠ None.
Proof. apply settled_resolve. Qed.

Lemma settled_next_ res h t : settled (next_ res h t) ≠ None.
Proof.
  unfold next_. destruct (truthy (prop _ _)); [apply settled_end_ | apply settled_resolve].
Qed.

Lemma settled_resolve_keep r t : settled t ≠ None → settled (resolve r t) = settled t.
Proof. unfold resolve. destruct (settled t) eqn:E; simpl; congruence. Qed.

Lemma settled_end_keep res err t : settled t ≠ None → settled (end_ res err t) = settled t.
Proof.
  intros Hs. unfold end_. rewrite settled_resolve_keep; by destruct (truthy _).
Qed.

Lemma settled_next_keep res h t : settled t ≠ None → settled (next_ res h t) = settled t.
Proof.
  intros Hs. unfold next_. destruct (truthy (prop _ _)); [by apply settled_end_keep |].
  rewrite settled_resolve_keep.
  - destruct (truthy h); [| done]. unfold returnHandlers_push; simpl.
    destruct (negb _); [by apply settled_end_keep | done].
  - destruct (truthy h); [| done]. unfold returnHandlers_push; simpl.
    destruct (negb _); [by rewrite settled_end_keep | done].
Qed.

(** A promise that is resolved stays resolved with the same value, whatever
    the rest of the turn does. *)
Lemma settled_run_script_keep req res s :
  ∀ t, settled t ≠ None → settled (run_script req res s t) = settled t.
Proof.
  induction s as [| a s IH]; intros t Hs; simpl; [done |].
  destruct a; try rewrite IH; simpl;
    rewrite ?settled_next_keep, ?settled_end_keep; auto.
Qed.

Lemma settled_run_script req res s :
  existsb is_signal s = true → ∀ t, settled (run_script req res s t) ≠ None.
Proof.
  induction s as [| a s IH]; simpl; [done |]. intros Hs t.
  destruct a; simpl in Hs; try (by apply IH).
  - rewrite settled_run_script_keep; apply settled_next_.
  - rewrite settled_run_script_keep; apply settled_end_.
  - apply settled_end_.
Qed.

Lemma snd_settle_keep r p : p.2 ≠ Pending → (settle r p).2 = p.2.
Proof. unfold settle. destruct p.2 eqn:E; simpl; congruence. Qed.

Lemma snd_settle r p : r ≠ Pending → (settle r p).2 ≠ Pending.
Proof. unfold settle. destruct p.2 eqn:E; simpl; congruence. Qed.

Lemma snd_callback err p : (callback err p).2 ≠ Pending.
Proof. apply snd_settle. by destruct (truthy err). Qed.

Lemma run_hscript_keep req res s :
  ∀ p, p.2 ≠ Pending → (run_hscript req res s p).2 = p.2.
Proof.
  induction s as [| a s IH]; intros p Hp; simpl; [done |].
  destruct a.
  - by rewrite IH.
  - by rewrite IH.
  - unfold callback. rewrite IH; rewrite snd_settle_keep; done.
  - by apply snd_settle_keep.
Qed.

Lemma run_hscript_settles req res s :
  existsb is_hsignal s = true → ∀ p, (run_hscript req res s p).2 ≠ Pending.
Proof.
  induction s as [| a s IH]; simpl; [done |]. intros Hs p.
  destruct a; simpl in Hs; try (by apply IH).
  - rewrite run_hscript_keep; apply snd_callback.
  - by apply snd_settle.
Qed.

Lemma for_handlers_settles call hs :
  Forall (λ h, ∀ w, (call h w).2 ≠ Pending) hs →
  ∀ w, (for_handlers call hs w).2 ≠ Pending.
Proof.
  induction 1 as [| h hs Hh _ IH]; intros w; simpl; [done |].
  specialize (Hh w). destruct (call h w) as [w' [[] | e |]]; simpl in *; auto.
Qed.

Lemma call_handler_settles req res h :
  handler_ok (existsb is_hsignal) h = true →
  ∀ w, (call_handler req res h w).2 ≠ Pending.
Proof.
  induction h as [body | hs IH | v Hv] using handler_nested_ind; intros Hok w.
  - simpl. by apply run_hscript_settles.
  - simpl. simpl in Hok.
    assert (Hall : Forall (λ h, ∀ w, (call_handler req res h w).2 ≠ Pending) hs).
    { apply Forall_forall. intros h Hin. rewrite Forall_forall in IH.
      apply IH; [done |]. rewrite forallb_forall in Hok. apply Hok.
      by apply list_elem_of_In. }
    pose proof (for_handlers_settles _ hs Hall (log w (EvHandler (VEngineHandler hs)))) as Hs.
    destruct (for_handlers _ hs _) as [w' [[] | e |]]; simpl in *;
      try destruct (truthy e); done.
  - destruct v; try discriminate; done.
Qed.

Lemma _runReturnHandlers_settles req res hs w :
  forallb (handler_ok (existsb is_hsignal)) hs = true →
  (_runReturnHandlers req res hs w).2 ≠ Pending.
Proof.
  intros Hok. apply for_handlers_settles. apply Forall_forall. intros h Hin w'.
  apply call_handler_settles. rewrite forallb_forall in Hok. apply Hok.
  by apply list_elem_of_In.
Qed.

Lemma for_middleware_settles run stack :
  Forall (λ m, ∀ w hs, settled (run m w hs) ≠ None) stack →
  ∀ w hs error isComplete, (for_middleware run stack w hs error isComplete).2 ≠ None.
Proof.
  induction 1 as [| m stack Hm _ IH]; intros w hs error isComplete; simpl; [done |].
  specialize (Hm w hs). destruct (settled (run m w hs)) as [[e []] |]; simpl; auto.
Qed.

Lemma _runMiddleware_settles req res m :
  middleware_ok (existsb is_signal) (existsb is_hsignal) m →
  ∀ w hs, settled (_runMiddleware req res m w hs) ≠ None.
Proof.
  induction m as [f | stack IH] using middleware_nested_ind; intros Hm w hs.
  - simpl. simpl in Hm. specialize (Hm (cell w req) (cell w res)).
    apply andb_true_iff in Hm as [Hm _]. by apply settled_run_script.
  - pose proof Hm as Hok. apply stack_ok_engine in Hm. unfold stack_ok in Hm.
    assert (Hstack : Forall (λ m, ∀ w hs, settled (_runMiddleware req res m w hs) ≠ None) stack).
    { apply Forall_forall. intros m Hin. rewrite Forall_forall in IH, Hm. apply IH; auto. }
    pose proof (for_middleware_settles _ stack Hstack
                  (log w (EvMiddleware (MEngine stack))) [] VNull false) as Hloop.
    pose proof (ok__runAllMiddleware (existsb is_signal) (existsb is_hsignal) req res stack
                  (log w (EvMiddleware (MEngine stack)))) as Hhandlers.
    unfold _runAllMiddleware in Hhandlers. simpl.
    destruct (for_middleware _ stack _ [] VNull false) as [w1 [[[e c] ihs] |]]; simpl in *;
      [| done].
    specialize (Hhandlers _ _ _ _ (proj1 (stack_ok_engine _ _ _) Hok) eq_refl).
    destruct c.
    + pose proof (_runReturnHandlers_settles req res (rev ihs) w1 Hhandlers) as Hrh.
      destruct (_runReturnHandlers req res (rev ihs) w1) as [w2 [[] | e' |]];
        try apply settled_end_. done.
    + apply settled_next_.
Qed.

Lemma _processRequest_settles stack req res w :
  responsive stack → (_processRequest stack req res w).2 ≠ Pending.
Proof.
  intros Hresp. unfold _processRequest.
  pose proof (ok__runAllMiddleware (existsb is_signal) (existsb is_hsignal) req res stack w)
    as Hhandlers.
  assert (Hall : (_runAllMiddleware req res stack w).2 ≠ None).
  { unfold _runAllMiddleware.
    assert (Hloop : (for_middleware (_runMiddleware req res) stack w [] VNull false).2 ≠ None).
    { apply for_middleware_settles. apply Forall_forall. intros m Hin.
      apply _runMiddleware_settles. unfold responsive, stack_ok in Hresp.
      rewrite Forall_forall in Hresp. auto. }
    by destruct (for_middleware _ stack w [] VNull false) as [w1 [[[e c] raw] |]]. }
  destruct (_runAllMiddleware req res stack w) as [w1 [[[e c] hs] |]]; simpl in *; [| done].
  specialize (Hhandlers _ _ _ _ Hresp eq_refl).
  destruct (_checkForCompletion w1 req res c); simpl; [done |].
  pose proof (_runReturnHandlers_settles req res hs w1 Hhandlers) as Hrh.
  destruct (_runReturnHandlers req res hs w1) as [w2 [[] | e' |]]; simpl in *;
    try destruct (truthy e); done.
Qed.

Lemma deliver_calls_back res r : r.2 ≠ Pending → (deliver res r).2 ≠ None.
Proof. destruct r as [w [[] | e |]]; simpl; done. Qed.

(** With a responsive stack the callback of [_handle] is always called. *)
Lemma _handle_calls_back stack callerReq w :
  responsive stack → (_handle stack callerReq w).2 ≠ None.
Proof.
  intros Hresp. destruct (well_formed w callerReq) eqn:Hwf.
  - rewrite (_handle_well_formed _ _ _ Hwf).
    destruct (new_request_response w callerReq) as [[req res] w2].
    apply deliver_calls_back. by apply _processRequest_settles.
  - by destruct (_handle_malformed stack callerReq w Hwf) as (w1 & e & l & -> & _).
Qed.


(** ** C10: the promise form never rejects *)





(** A thrown error ends up in the response, not in a rejection. *)
Example thrown_error_is_in_the_response :
  let r := _promiseHandle [Examples.throws (VStr "boom")] (VObj Examples.caller) Examples.w0 in
  r.2 = Fulfilled (VObj Examples.work_res) ∧
  prop (cell r.1 Examples.work_res) "error" = serializeError (VStr "boom").
Proof. vm_compute. done. Qed.

Example throws_is_responsive : responsive [Examples.throws (VStr "boom")].
Proof. repeat constructor. Qed.

(** ** Properties of the response that nobody writes are kept *)

Section KeyFrame.
Variables req res : loc.
Variable k : string.
Hypothesis req_res : req ≠ res.

(** Property [k] of the response is the same in [w'] as in [w]. *)
Let kept (w w' : world) : Prop := cell w' res !! k = cell w res !! k.

Let hquiet : list haction → bool := forallb (λ a, negb (hwrites Res k a)).
Let quiet : list action → bool := forallb (λ a, negb (writes Res k a)).

Lemma kept_set_prop tg k' v w :
  target_eqb tg Res && String.eqb k' k = false →
  kept w (set_prop w (target_loc req res tg) k' v).
Proof using req_res.
  unfold kept. intros Hw. destruct tg; simpl in *.
  - by rewrite cell_set_prop_ne.
  - rewrite cell_set_prop_eq. apply lookup_insert_ne.
    intros ->. by rewrite String.eqb_refl in Hw.
Qed.

Lemma kept_delete_prop tg k' w :
  target_eqb tg Res && String.eqb k' k = false →
  kept w (delete_prop w (target_loc req res tg) k').
Proof using req_res.
  unfold kept. intros Hw. destruct tg; simpl in *.
  - by rewrite cell_delete_prop_ne.
  - rewrite cell_delete_prop_eq. apply lookup_delete_ne.
    intros ->. by rewrite String.eqb_refl in Hw.
Qed.

Lemma kept_run_hscript s :
  hquiet s = true → ∀ p, kept p.1 (run_hscript req res s p).1.
Proof using req_res.
  unfold kept. induction s as [| a s IH]; simpl; [done |].
  intros [Ha Hs]%andb_true_iff p. apply negb_true_iff in Ha.
  destruct a; simpl in Ha; rewrite ?fst_settle; try rewrite (IH Hs); simpl;
    rewrite ?fst_callback; auto.
  - by apply kept_set_prop.
  - by apply kept_delete_prop.
Qed.

Lemma kept_for_handlers call hs :
  Forall (λ h, ∀ w, kept w (call h w).1) hs →
  ∀ w, kept w (for_handlers call hs w).1.
Proof.
  unfold kept. induction 1 as [| h hs Hh _ IH]; intros w; simpl; [done |].
  specialize (Hh w). destruct (call h w) as [w' [[] | e |]]; simpl in *; auto.
  by rewrite IH.
Qed.

Lemma kept_call_handler h :
  handler_ok hquiet h = true → ∀ w, kept w (call_handler req res h w).1.
Proof using req_res.
  induction h as [body | hs IH | v Hv] using handler_nested_ind; intros Hok w.
  - simpl. apply (kept_run_hscript body Hok (log w _, Pending)).
  - simpl. simpl in Hok.
    assert (Hall : Forall (λ h, ∀ w, kept w (call_handler req res h w).1) hs).
    { apply Forall_forall. intros h Hin. rewrite Forall_forall in IH.
      apply IH; [done |]. rewrite forallb_forall in Hok. apply Hok.
      by apply list_elem_of_In. }
    pose proof (kept_for_handlers _ hs Hall (log w (EvHandler (VEngineHandler hs)))) as Hk.
    destruct (for_handlers _ hs _) as [w' [[] | e |]]; simpl in *;
      rewrite ?fst_callback; done.
  - destruct v; try discriminate; done.
Qed.

Lemma kept__runReturnHandlers hs w :
  forallb (handler_ok hquiet) hs = true → kept w (_runReturnHandlers req res hs w).1.
Proof using req_res.
  intros Hok. apply kept_for_handlers. apply Forall_forall. intros h Hin w'.
  apply kept_call_handler. rewrite forallb_forall in Hok. apply Hok.
  by apply list_elem_of_In.
Qed.

(** The engine itself writes only the error of the response during the
    run of the stack. *)
Hypothesis not_error : k ≠ "error".

Lemma kept_end_ err t : kept (tw t) (tw (end_ res err t)).
Proof using not_error.
  unfold kept, end_. rewrite tw_resolve. destruct (truthy _); simpl; [| done].
  rewrite cell_set_prop_eq. by apply lookup_insert_ne.
Qed.

Lemma kept_next_ h t : kept (tw t) (tw (next_ res h t)).
Proof using not_error.
  unfold next_. destruct (truthy (prop _ _)); [apply kept_end_ |].
  rewrite tw_resolve. destruct (truthy h); [| done].
  unfold returnHandlers_push; simpl. destruct (negb _); [apply kept_end_ | done].
Qed.

Lemma kept_run_script s :
  quiet s = true → ∀ t, kept (tw t) (tw (run_script req res s t)).
Proof using req_res not_error.
  unfold kept. induction s as [| a s IH]; simpl; [done |].
  intros [Ha Hs]%andb_true_iff t. apply negb_true_iff in Ha.
  destruct a; simpl in Ha; try rewrite (IH Hs); simpl.
  - by apply kept_set_prop.
  - by apply kept_delete_prop.
  - apply kept_next_.
  - apply kept_end_.
  - apply kept_end_.
Qed.

Lemma kept_for_middleware run stack :
  Forall (λ m, ∀ w hs, kept w (tw (run m w hs))) stack →
  ∀ w hs error isComplete, kept w (for_middleware run stack w hs error isComplete).1.
Proof.
  unfold kept. induction 1 as [| m stack Hm _ IH]; intros w hs error isComplete; simpl;
    [done |].
  specialize (Hm w hs). destruct (settled (run m w hs)) as [[e []] |]; simpl; auto.
  by rewrite IH.
Qed.

Lemma kept__runMiddleware m :
  middleware_ok quiet hquiet m → ∀ w hs, kept w (tw (_runMiddleware req res m w hs)).
Proof using req_res not_error.
  induction m as [f | stack IH] using middleware_nested_ind; intros Hm w hs.
  - simpl. simpl in Hm. specialize (Hm (cell w req) (cell w res)).
    apply andb_true_iff in Hm as [Hm _].
    apply (kept_run_script _ Hm (Turn (log w _) hs None)).
  - pose proof Hm as Hok. apply stack_ok_engine in Hm. unfold stack_ok in Hm.
    assert (Hstack : Forall (λ m, ∀ w hs, kept w (tw (_runMiddleware req res m w hs))) stack).
    { apply Forall_forall. intros m Hin. rewrite Forall_forall in IH, Hm. apply IH; auto. }
    pose proof (kept_for_middleware _ stack Hstack
                  (log w (EvMiddleware (MEngine stack))) [] VNull false) as Hloop.
    pose proof (ok__runAllMiddleware quiet hquiet req res stack
                  (log w (EvMiddleware (MEngine stack)))) as Hhandlers.
    unfold _runAllMiddleware in Hhandlers. simpl.
    destruct (for_middleware _ stack _ [] VNull false) as [w1 [[[e c] ihs] |]]; simpl in *;
      [| done].
    specialize (Hhandlers _ _ _ _ (proj1 (stack_ok_engine _ _ _) Hok) eq_refl).
    unfold kept in *. destruct c.
    + pose proof (kept__runReturnHandlers (rev ihs) w1 Hhandlers) as Hrh.
      unfold kept in Hrh.
      destruct (_runReturnHandlers req res (rev ihs) w1) as [w2 [[] | e' |]]; simpl in *;
        try (etrans; [apply kept_end_ |]); simpl; by rewrite Hrh, Hloop.
    + etrans; [apply kept_next_ |]. done.
Qed.

Lemma kept__processRequest stack w :
  stack_ok quiet hquiet stack → kept w (_processRequest stack req res w).1.
Proof using req_res not_error.
  intros Hstack. unfold _processRequest.
  pose proof (ok__runAllMiddleware quiet hquiet req res stack w) as Hhandlers.
  assert (Hall : kept w (_runAllMiddleware req res stack w).1).
  { unfold _runAllMiddleware. rewrite fst_reverse_handlers. apply kept_for_middleware.
    apply Forall_forall. intros m Hin. apply kept__runMiddleware.
    unfold stack_ok in Hstack. rewrite Forall_forall in Hstack. auto. }
  unfold kept in *.
  destruct (_runAllMiddleware req res stack w) as [w1 [[[e c] hs] |]]; simpl in *; [| done].
  specialize (Hhandlers _ _ _ _ Hstack eq_refl).
  destruct (_checkForCompletion w1 req res c); simpl; [done |].
  pose proof (kept__runReturnHandlers hs w1 Hhandlers) as Hrh. unfold kept in Hrh.
  destruct (_runReturnHandlers req res hs w1) as [w2 [[] | e' |]]; simpl in *;
    try destruct (truthy e); simpl; congruence.
Qed.

Hypothesis not_result : k ≠ "result".

Lemma kept_deliver r : kept r.1 (deliver res r).1.
Proof using not_error not_result.
  unfold kept. destruct r as [w [[] | e |]]; simpl; try done.
  destruct (truthy e); [| done]. destruct (negb _).
  - rewrite cell_set_prop_eq, cell_delete_prop_eq.
    rewrite lookup_insert_ne by done. by rewrite lookup_delete_ne.
  - rewrite cell_delete_prop_eq. by rewrite lookup_delete_ne.
Qed.

End KeyFrame.

(** ** C2: an error ends the stack *)

(** C2.  In a stack [pre ++ m :: post] where every middleware of [pre]
    calls [next], let the turn of [m] consist of writes followed by a last
    action that ends it with an error [e].  Then the stack halts with [e]
    and is complete, the response's error is the normalized form of [e],
    the only middleware invoked after [pre] is [m] itself (none of [post]),
    the return handlers that run afterwards invoke no middleware either.
    As long as the return handlers registered before do not write the error
    of the response, the response delivered to the caller still carries the
    normalized form of [e]; when none was registered the caller is told [e]
    and the response has no result. *)
Theorem C2_error_halts_stack req res pre f post w w1 e1 hs1 s last e :
  for_middleware (_runMiddleware req res) pre w [] VNull false = (w1, Some (e1, false, hs1)) →
  f (cell w1 req) (cell w1 res) = s ++ [last] →
  Forall (λ a, is_write a = true) s →
  ends_turn_with_error
    (prop (cell (tw (run_script req res s (Turn (log w1 (EvMiddleware (MFun f))) hs1 None))) res)
          "error") last e →
  ∃ w2,
    _runAllMiddleware req res (pre ++ MFun f :: post) w = (w2, Some (e, true, rev hs1)) ∧
    prop (cell w2 res) "error" = serializeError e ∧
    trace w2 = trace w1 ++ [EvMiddleware (MFun f)] ∧
    (∀ hs, middleware_events (trace (_runReturnHandlers req res hs w2).1)
           = middleware_events (trace w2)) ∧
    (req ≠ res →
     forallb (handler_ok (forallb (λ a, negb (hwrites Res "error" a)))) hs1 = true →
     ∀ w3 err response,
       deliver res (_processRequest (pre ++ MFun f :: post) req res w)
       = (w3, Some (err, response)) →
       response = VObj res ∧ prop (cell w3 res) "error" = serializeError e) ∧
    (hs1 = [] →
     ∃ w3, deliver res (_processRequest (pre ++ MFun f :: post) req res w) = (w3, Some (e, VObj res)) ∧
           prop (cell w3 res) "error" = serializeError e ∧
           has_prop (cell w3 res) "result" = false).
Proof.
  intros Hpre Hscript Hwrites [He Hlast].
  set (t0 := Turn (log w1 (EvMiddleware (MFun f))) hs1 None) in *.
  set (t := run_script req res s t0) in *.
  destruct (run_script_writes_state req res s Hwrites t0) as [Hhs Hsettled].
  fold t in Hhs, Hsettled. simpl in Hhs, Hsettled.
  assert (Hturn : _runMiddleware req res (MFun f) w1 hs1 =
                  Turn (set_prop (tw t) res "error" (serializeError e)) hs1 (Some (e, true))).
  { simpl. rewrite Hscript, (run_script_writes req res s Hwrites). fold t0. fold t.
    destruct Hlast as [-> | [-> | [[h ->] Herr]]]; simpl.
    - rewrite end__truthy by done. by rewrite Hhs.
    - rewrite end__truthy by done. by rewrite Hhs.
    - unfold next_. rewrite Herr, He. rewrite end__truthy by done. by rewrite Hhs. }
  assert (Htrace : trace (tw t) = trace w1 ++ [EvMiddleware (MFun f)]).
  { unfold t. rewrite trace_run_script. reflexivity. }
  assert (Hall : _runAllMiddleware req res (pre ++ MFun f :: post) w =
                 (set_prop (tw t) res "error" (serializeError e), Some (e, true, rev hs1))).
  { unfold _runAllMiddleware. rewrite (for_middleware_app _ _ _ _ _ _ _ _ _ _ Hpre).
    rewrite for_middleware_cons, Hturn. reflexivity. }
  exists (set_prop (tw t) res "error" (serializeError e)).
  split; [exact Hall |]. split; [apply prop_set_prop |]. split; [exact Htrace |].
  split; [intros hs; apply _runReturnHandlers_no_middleware |].
  split.
  { intros Hne Hquiet w3 err response. unfold _processRequest. rewrite Hall.
    unfold _checkForCompletion.
    rewrite cell_set_prop_eq, (has_prop_insert _ "error"), andb_false_r. simpl.
    rewrite <- (forallb_rev _ hs1) in Hquiet.
    pose proof (kept__runReturnHandlers req res "error" Hne (rev hs1)
                  (set_prop (tw t) res "error" (serializeError e)) Hquiet) as Hkept.
    cbv beta in Hkept. rewrite cell_set_prop_eq, lookup_insert_eq in Hkept.
    destruct (_runReturnHandlers req res (rev hs1) _) as [w2' [[] | e' |]]; simpl in Hkept.
    - rewrite He. intros Hdel.
      destruct (deliver_rejected res w2' e He) as (w4 & Hd & _ & Herr & _).
      rewrite Hd in Hdel. injection Hdel as <- <- <-. split; [done |].
      rewrite Herr, (prop_lookup _ _ _ Hkept). reflexivity.
    - destruct (truthy e') eqn:He'.
      + intros Hdel.
        destruct (deliver_rejected res w2' e' He') as (w4 & Hd & _ & Herr & _).
        rewrite Hd in Hdel. injection Hdel as <- <- <-. split; [done |].
        rewrite Herr, (prop_lookup _ _ _ Hkept). reflexivity.
      + simpl. rewrite He'. intros [= <- <- <-]. split; [done |].
        by apply prop_lookup.
    - discriminate. }
  intros ->. unfold _processRequest. rewrite Hall. unfold _checkForCompletion.
  rewrite cell_set_prop_eq, (has_prop_insert _ "error"). rewrite andb_false_r. simpl.
  rewrite He. simpl. rewrite He.
  rewrite cell_delete_prop_eq, cell_set_prop_eq.
  rewrite (prop_delete_ne _ "result" "error") by done. rewrite prop_insert. simpl.
  eexists. split; [reflexivity |]. rewrite cell_delete_prop_eq, cell_set_prop_eq.
  split; [| apply has_prop_delete].
  rewrite (prop_delete_ne _ "result" "error") by done. apply prop_insert.
Qed.

Lemma C2_witness :
  let w1 := log Examples.work (EvMiddleware Examples.passes) in
  ∃ w2,
    _runAllMiddleware Examples.work_req Examples.work_res
      ([Examples.passes] ++ MFun Examples.fails_script :: [Examples.fixed_result (VNum 42)])
      Examples.work = (w2, Some (VStr "boom", true, rev [])) ∧
    prop (cell w2 Examples.work_res) "error" = serializeError (VStr "boom") ∧
    trace w2 = trace w1 ++ [EvMiddleware (MFun Examples.fails_script)] ∧
    (∀ hs, middleware_events (trace (_runReturnHandlers Examples.work_req Examples.work_res hs w2).1)
           = middleware_events (trace w2)) ∧
    (Examples.work_req ≠ Examples.work_res →
     forallb (handler_ok (forallb (λ a, negb (hwrites Res "error" a)))) [] = true →
     ∀ w3 err response,
       deliver Examples.work_res
         (_processRequest
            ([Examples.passes] ++ MFun Examples.fails_script :: [Examples.fixed_result (VNum 42)])
            Examples.work_req Examples.work_res Examples.work)
       = (w3, Some (err, response)) →
       response = VObj Examples.work_res ∧
       prop (cell w3 Examples.work_res) "error" = serializeError (VStr "boom")) ∧
    (@nil value = [] →
     ∃ w3, deliver Examples.work_res
             (_processRequest
                ([Examples.passes] ++ MFun Examples.fails_script :: [Examples.fixed_result (VNum 42)])
                Examples.work_req Examples.work_res Examples.work) = (w3, Some (VStr "boom", VObj Examples.work_res)) ∧
           prop (cell w3 Examples.work_res) "error" = serializeError (VStr "boom") ∧
           has_prop (cell w3 Examples.work_res) "result" = false).
Proof.
  intros w1.
  apply (C2_error_halts_stack Examples.work_req Examples.work_res [Examples.passes]
           Examples.fails_script [Examples.fixed_result (VNum 42)] Examples.work w1 VNull []
           [ASet Res "partial" (VNum 1)] (AEnd (VStr "boom")) (VStr "boom")).
  - reflexivity.
  - reflexivity.
  - repeat constructor.
  - split; [reflexivity | left; reflexivity].
Defined.

(** ** C1: the completion invariant *)

Lemma get_spread w v k : get w v k = prop (spread w v) k.
Proof. by destruct v. Qed.

Lemma has_prop_kept (o o' : obj) k : o' !! k = o !! k → has_prop o' k = has_prop o k.
Proof. unfold has_prop. by intros ->. Qed.

(** When [_processRequest] does not throw a truthy error, the completion
    check has passed and the return handlers have run after it. *)
Lemma _processRequest_passed stack req res w w3 out :
  _processRequest stack req res w = (w3, out) →
  out = Fulfilled tt ∨ (∃ e, out = Rejected e ∧ truthy e = false) →
  ∃ w1 error hs,
    _runAllMiddleware req res stack w = (w1, Some (error, true, hs)) ∧
    has_prop (cell w1 res) "result" || has_prop (cell w1 res) "error" = true ∧
    w3 = (_runReturnHandlers req res hs w1).1.
Proof.
  unfold _processRequest.
  destruct (_runAllMiddleware req res stack w) as [w1 [[[error c] hs] |]].
  2: { intros [= <- <-] [? | (e & ? & _)]; discriminate. }
  destruct (_checkForCompletion w1 req res c) as [e0 |] eqn:Hcheck.
  { intros [= <- <-] [? | (e & [= <-] & He)]; [discriminate |].
    unfold _checkForCompletion in Hcheck.
    destruct (negb _ && negb _), (negb c); simplify_eq; discriminate. }
  assert (Hpassed : c = true ∧
            has_prop (cell w1 res) "result" || has_prop (cell w1 res) "error" = true).
  { unfold _checkForCompletion in Hcheck.
    destruct (has_prop (cell w1 res) "result"), (has_prop (cell w1 res) "error"), c;
      simpl in Hcheck; try discriminate; done. }
  destruct Hpassed as [-> Hhas].
  destruct (_runReturnHandlers req res hs w1) as [w2 [[] | e' |]] eqn:Hrh;
    [destruct (truthy error) | |]; intros [= <- <-] _;
    exists w1, error, hs; rewrite Hrh; done.
Qed.

(** C1 (amended).  For a well-formed request: a responsive stack makes
    [_handle] call back; and whenever [_handle] calls back, the response is
    a new object such that
    - if an error is reported, the response carries an error and no result;
    - if none is reported and no return handler writes the result or the
      error of the response, the response carries a result or an error;
    - its identifier and version tag are those of the request, provided no
      middleware and no return handler writes them. *)
Theorem C1_completion_invariant stack callerReq w :
  well_formed w callerReq = true →
  (responsive stack →
   ∃ w' error response, _handle stack callerReq w = (w', Some (error, response))) ∧
  ∀ w' error response,
    _handle stack callerReq w = (w', Some (error, response)) →
    ∃ res,
      response = VObj res ∧ heap w !! res = None ∧
      (truthy error = true →
       has_prop (cell w' res) "result" = false ∧
       truthy (prop (cell w' res) "error") = true) ∧
      (truthy error = false →
       handlers_never_write Res "result" stack →
       handlers_never_write Res "error" stack →
       has_prop (cell w' res) "result" || has_prop (cell w' res) "error" = true) ∧
      (never_writes Res "id" stack → prop (cell w' res) "id" = get w callerReq "id") ∧
      (never_writes Res "jsonrpc" stack →
       prop (cell w' res) "jsonrpc" = get w callerReq "jsonrpc").
Proof.
  intros Hwf. split.
  { intros Hresp. pose proof (_handle_calls_back stack callerReq w Hresp) as Hlive.
    destruct (_handle stack callerReq w) as [w' [[error response] |]]; [eauto | done]. }
  intros w' error response. rewrite (_handle_well_formed _ _ _ Hwf).
  destruct (new_request_response w callerReq) as [[req res] w2] eqn:Hnew.
  destruct (new_request_response_spec _ _ _ _ _ Hnew)
    as (_ & Hfresh & Hne & _ & _ & Hcell & _).
  destruct (_processRequest stack req res w2) as [w3 out] eqn:Hproc.
  intros Hdel. exists res.
  assert (Hresponse : response = VObj res).
  { destruct out as [[] | e |]; simpl in Hdel; congruence. }
  assert (Hkeys : ∀ k, k ≠ "error" → k ≠ "result" → never_writes Res k stack →
                       cell w' res !! k = cell w2 res !! k).
  { intros k Hk1 Hk2 Hquiet.
    pose proof (kept_deliver res k Hk1 Hk2 (w3, out)) as Hd.
    pose proof (kept__processRequest req res k Hne Hk1 stack w2 Hquiet) as Hp.
    rewrite Hdel, Hproc in *. simpl in *. congruence. }
  split; [exact Hresponse |]. split; [exact Hfresh |]. split; [| split; [| split]].
  - intros He. destruct out as [[] | e |]; simpl in Hdel; try discriminate.
    + injection Hdel as <- <- <-. discriminate.
    + assert (e = error) as -> by congruence.
      destruct (deliver_rejected res w3 error He) as (w4 & Hd & Hres & _ & Herr & _).
      simpl in Hd, Hdel. rewrite Hd in Hdel. injection Hdel as <-. auto.
  - intros He Hq1 Hq2.
    assert (Hout : (out = Fulfilled tt ∨ ∃ e, out = Rejected e ∧ truthy e = false) ∧ w' = w3).
    { destruct out as [[] | e |]; simpl in Hdel; try discriminate.
      - injection Hdel as <- _ _. auto.
      - assert (e = error) as -> by congruence. rewrite He in Hdel.
        injection Hdel as <- _. eauto. }
    destruct Hout as [Hout ->].
    destruct (_processRequest_passed _ _ _ _ _ _ Hproc Hout) as (w1 & merr & hs & Hall & Hhas & ->).
    pose proof (ok__runAllMiddleware _ _ req res stack w2 _ _ _ _ Hq1 Hall) as Hok1.
    pose proof (ok__runAllMiddleware _ _ req res stack w2 _ _ _ _ Hq2 Hall) as Hok2.
    rewrite (has_prop_kept _ _ _ (kept__runReturnHandlers req res "result" Hne hs w1 Hok1)).
    rewrite (has_prop_kept _ _ _ (kept__runReturnHandlers req res "error" Hne hs w1 Hok2)).
    exact Hhas.
  - intros Hquiet. unfold prop. rewrite (Hkeys "id") by done.
    rewrite Hcell, get_spread. by rewrite lookup_insert_eq.
  - intros Hquiet. unfold prop. rewrite (Hkeys "jsonrpc") by done.
    rewrite Hcell, get_spread. rewrite lookup_insert_ne by done. by rewrite lookup_insert_eq.
Qed.

Lemma C1_witness :
  (responsive [Examples.fixed_result (VNum 42)] →
   ∃ w' error response,
     _handle [Examples.fixed_result (VNum 42)] (VObj Examples.caller) Examples.w0
     = (w', Some (error, response))) ∧
  ∀ w' error response,
    _handle [Examples.fixed_result (VNum 42)] (VObj Examples.caller) Examples.w0
    = (w', Some (error, response)) →
    ∃ res,
      response = VObj res ∧ heap Examples.w0 !! res = None ∧
      (truthy error = true →
       has_prop (cell w' res) "result" = false ∧
       truthy (prop (cell w' res) "error") = true) ∧
      (truthy error = false →
       handlers_never_write Res "result" [Examples.fixed_result (VNum 42)] →
       handlers_never_write Res "error" [Examples.fixed_result (VNum 42)] →
       has_prop (cell w' res) "result" || has_prop (cell w' res) "error" = true) ∧
      (never_writes Res "id" [Examples.fixed_result (VNum 42)] →
       prop (cell w' res) "id" = get Examples.w0 (VObj Examples.caller) "id") ∧
      (never_writes Res "jsonrpc" [Examples.fixed_result (VNum 42)] →
       prop (cell w' res) "jsonrpc" = get Examples.w0 (VObj Examples.caller) "jsonrpc").
Proof.
  apply (C1_completion_invariant [Examples.fixed_result (VNum 42)] (VObj Examples.caller)
           Examples.w0).
  reflexivity.
Defined.

(** These disciplines hold of the usual middleware. *)
Example fixed_result_disciplined :
  responsive [Examples.fixed_result (VNum 42)] ∧
  handlers_never_write Res "result" [Examples.fixed_result (VNum 42)] ∧
  handlers_never_write Res "error" [Examples.fixed_result (VNum 42)] ∧
  never_writes Res "id" [Examples.fixed_result (VNum 42)] ∧
  never_writes Res "jsonrpc" [Examples.fixed_result (VNum 42)].
Proof. repeat split; repeat constructor. Qed.

(** C1 fails as stated: a return handler runs after the completion check,
    and here it deletes the result; the dispatch reports no error and the
    response carries neither a result nor an error. *)
Lemma C1_counterexample :
  let stack := [Examples.sets_then_registers_dropper; Examples.ends_with VUndef] in
  let r := _handle stack (VObj Examples.caller) Examples.w0 in
  well_formed Examples.w0 (VObj Examples.caller) = true ∧
  r.2 = Some (VNull, VObj Examples.work_res) ∧
  has_prop (cell r.1 Examples.work_res) "result" = false ∧
  has_prop (cell r.1 Examples.work_res) "error" = false.
Proof. vm_compute. done. Qed.

(** ** C4: return handlers run in reverse order, after the completion check *)

(** The array [returnHandlers] only grows, at its end: it lists the
    handlers in the order in which they are registered. *)
Lemma handlers_next_ res h t : ∃ pushed, handlers (next_ res h t) = handlers t ++ pushed.
Proof.
  unfold next_. destruct (truthy (prop _ _)).
  - exists []. by rewrite handlers_end_, app_nil_r.
  - rewrite handlers_resolve. destruct (truthy h).
    + exists [h]. unfold returnHandlers_push. simpl.
      destruct (negb _); by rewrite ?handlers_end_.
    + exists []. by rewrite app_nil_r.
Qed.

Lemma handlers_run_script req res s :
  ∀ t, ∃ pushed, handlers (run_script req res s t) = handlers t ++ pushed.
Proof.
  induction s as [| a s IH]; intros t; simpl.
  - exists []. by rewrite app_nil_r.
  - destruct a as [tg k v | tg k | h | err | e].
    + apply (IH (on_world _ t)).
    + apply (IH (on_world _ t)).
    + destruct (handlers_next_ res h t) as [p1 H1].
      destruct (IH (next_ res h t)) as [p2 H2].
      exists (p1 ++ p2). by rewrite H2, H1, app_assoc.
    + destruct (IH (end_ res err t)) as [p2 H2].
      exists p2. by rewrite H2, handlers_end_.
    + exists []. by rewrite handlers_end_, app_nil_r.
Qed.

Lemma handlers__runMiddleware req res m w hs :
  ∃ pushed, handlers (_runMiddleware req res m w hs) = hs ++ pushed.
Proof.
  destruct m as [f | stack].
  - apply (handlers_run_script req res _ (Turn (log w _) hs None)).
  - rewrite _runMiddleware_engine. cbv zeta.
    destruct (_runAllMiddleware req res stack _) as [w1 [[[e c] ihs] |]].
    + destruct c.
      * destruct (_runReturnHandlers req res ihs w1) as [w2 [[] | e' |]];
          exists []; rewrite ?handlers_end_; simpl; by rewrite app_nil_r.
      * apply (handlers_next_ res _ (on_world (λ _, w1) (Turn (log w _) hs None))).
    + exists []. simpl. by rewrite app_nil_r.
Qed.

Lemma handlers_for_middleware req res stack :
  ∀ w hs error isComplete w' error' isComplete' raw,
    for_middleware (_runMiddleware req res) stack w hs error isComplete
    = (w', Some (error', isComplete', raw)) →
    ∃ pushed, raw = hs ++ pushed.
Proof.
  induction stack as [| m stack IH]; intros w hs error isComplete w' error' isComplete' raw.
  - simpl. intros [= _ _ _ <-]. exists []. by rewrite app_nil_r.
  - rewrite for_middleware_cons.
    destruct (handlers__runMiddleware req res m w hs) as [p1 H1].
    destruct (settled (_runMiddleware req res m w hs)) as [[e []] |]; try discriminate.
    + intros [= _ _ _ <-]. eauto.
    + intros Hrest. destruct (IH _ _ _ _ _ _ _ _ Hrest) as [p2 H2].
      exists (p1 ++ p2). by rewrite H2, H1, app_assoc.
Qed.

(** C4 (amended).  Let the stack halt with the array [raw] of collected
    return handlers, in the order in which they were pushed.  If the
    completion check fails, [_processRequest] throws at once and runs no
    handler.  If it passes, the handlers are called from [rev raw]: in
    reverse order, serially, each at most once; plain function handlers are
    called exactly in that order up to the first one that fails or never
    calls back, and all of them when none does; this is so whether or not
    the stack ended with an error, which is thrown again afterwards. *)
Theorem C4_return_handlers_reverse_order stack req res w w1 error isComplete raw :
  for_middleware (_runMiddleware req res) stack w [] VNull false
  = (w1, Some (error, isComplete, raw)) →
  match _checkForCompletion w1 req res isComplete with
  | Some e => _processRequest stack req res w = (w1, Rejected e)
  | None =>
      let r := _runReturnHandlers req res (rev raw) w1 in
      (_processRequest stack req res w).1 = r.1 ∧
      (r.2 = Fulfilled tt →
       (_processRequest stack req res w).2
       = if truthy error then Rejected error else Fulfilled tt) ∧
      (∃ ran, trace r.1 = trace w1 ++ map EvHandler ran ∧
              ran `sublist_of` flat_map calls (rev raw)) ∧
      (Forall plain_function raw →
       ∃ n, trace r.1 = trace w1 ++ map EvHandler (take n (rev raw)) ∧
            (r.2 = Fulfilled tt → n = length raw))
  end.
Proof.
  intros Hloop. unfold _processRequest, _runAllMiddleware. rewrite Hloop. simpl.
  destruct (_checkForCompletion w1 req res isComplete); [reflexivity |].
  split; [| split; [| split]].
  - by destruct (_runReturnHandlers req res (rev raw) w1) as [w2 [[] | e' |]];
      try destruct (truthy error).
  - intros Hf. destruct (_runReturnHandlers req res (rev raw) w1) as [w2 [[] | e' |]];
      try discriminate. by destruct (truthy error).
  - apply _runReturnHandlers_trace.
  - intros Hplain.
    destruct (_runReturnHandlers_plain req res (rev raw)) with (w := w1) as (n & Htr & Hn).
    { by apply Forall_rev. }
    exists n. split; [exact Htr |]. intros Hf. rewrite (Hn Hf). apply length_rev.
Qed.

Lemma C4_witness :
  let stack := [Examples.registers (Examples.marker 1); Examples.registers (Examples.marker 2);
                Examples.registers (Examples.marker 3); Examples.ends_with (VStr "boom")] in
  let raw := [Examples.marker 1; Examples.marker 2; Examples.marker 3] in
  let w1 := (for_middleware (_runMiddleware Examples.work_req Examples.work_res) stack
               Examples.work [] VNull false).1 in
  match _checkForCompletion w1 Examples.work_req Examples.work_res true with
  | Some e => _processRequest stack Examples.work_req Examples.work_res Examples.work
              = (w1, Rejected e)
  | None =>
      let r := _runReturnHandlers Examples.work_req Examples.work_res (rev raw) w1 in
      (_processRequest stack Examples.work_req Examples.work_res Examples.work).1 = r.1 ∧
      (r.2 = Fulfilled tt →
       (_processRequest stack Examples.work_req Examples.work_res Examples.work).2
       = if truthy (VStr "boom") then Rejected (VStr "boom") else Fulfilled tt) ∧
      (∃ ran, trace r.1 = trace w1 ++ map EvHandler ran ∧
              ran `sublist_of` flat_map calls (rev raw)) ∧
      (Forall plain_function raw →
       ∃ n, trace r.1 = trace w1 ++ map EvHandler (take n (rev raw)) ∧
            (r.2 = Fulfilled tt → n = length raw))
  end.
Proof.
  intros stack raw w1.
  apply (C4_return_handlers_reverse_order stack Examples.work_req Examples.work_res
           Examples.work w1 (VStr "boom") true raw).
  reflexivity.
Defined.

(** Handlers registered by three middleware run in the order 3, 2, 1 even
    though the fourth middleware ends the request with an error. *)
Example handlers_run_in_reverse_order :
  let stack := [Examples.registers (Examples.marker 1); Examples.registers (Examples.marker 2);
                Examples.registers (Examples.marker 3); Examples.ends_with (VStr "boom")] in
  let r := _handle stack (VObj Examples.caller) Examples.w0 in
  handler_events (trace r.1) = [Examples.marker 3; Examples.marker 2; Examples.marker 1] ∧
  r.2 = Some (VStr "boom", VObj Examples.work_res).
Proof. vm_compute. done. Qed.

(** C4 fails as stated: the stack below halts by reaching its end, having
    collected one return handler, and that handler is never executed,
    because the completion check throws first. *)
Lemma C4_counterexample :
  let stack := [Examples.registers Examples.plain_handler] in
  let halted := _runAllMiddleware Examples.work_req Examples.work_res stack Examples.work in
  let r := _handle stack (VObj Examples.caller) Examples.w0 in
  halted.2 = Some (VNull, false, [Examples.plain_handler]) ∧
  handler_events (trace r.1) = [] ∧
  handler_events (trace r.1) ≠ rev [Examples.plain_handler] ∧
  r.2 = Some (SerializableError no_result_or_error, VObj Examples.work_res).
Proof. vm_compute. done. Qed.

(** ** C8: return handlers that are not functions *)

Lemma settled_run_script_some req res s t r :
  settled t = Some r → settled (run_script req res s t) = Some r.
Proof. intros Hs. rewrite settled_run_script_keep; congruence. Qed.

Lemma run_script_spares_error req res s :
  req ≠ res →
  Forall (λ a, spares_error a = true) s →
  ∀ t, handlers (run_script req res s t) = handlers t ∧
       settled (run_script req res s t) = settled t ∧
       cell (tw (run_script req res s t)) res !! "error" = cell (tw t) res !! "error".
Proof.
  intros Hne. induction 1 as [| a s Ha _ IH]; intros t; simpl; [done |].
  apply andb_true_iff in Ha as [Hw Ha]. apply negb_true_iff in Ha.
  destruct a; try discriminate; simpl in Ha;
    edestruct IH as (-> & -> & ->); simpl; (split; [done |]); (split; [done |]).
  - by apply (kept_set_prop req res "error" Hne).
  - by apply (kept_delete_prop req res "error" Hne).
Qed.

Lemma call_handler_not_function req res h w :
  is_function h = false → call_handler req res h w = (w, Rejected TypeError_not_a_function).
Proof. by destruct h. Qed.

(** C8 (amended).  In a stack [pre ++ m :: post] where every middleware of
    [pre] calls [next], let [m] make some writes and then, with no error on
    the response, call [next(h)] with a truthy [h] that is not a function.
    Then, whatever [m] does afterwards, the stack halts after [m], complete,
    with the engine's error "'next' return handlers must be functions", and
    no middleware of [post] is invoked.  If what [m] does afterwards is
    only writes that leave the error of the response alone, the dispatch
    reports an error (the TypeError of calling [h], which [next] has pushed
    among the handlers all the same), no return handler runs, and the
    response delivered carries the normalized engine error and no result.
    A falsy [h] is no handler at all. *)
Theorem C8_non_function_return_handler req res pre f post w w1 e1 hs1 s h rest :
  req ≠ res →
  for_middleware (_runMiddleware req res) pre w [] VNull false = (w1, Some (e1, false, hs1)) →
  f (cell w1 req) (cell w1 res) = s ++ ANext h :: rest →
  Forall (λ a, is_write a = true) s →
  truthy h = true →
  is_function h = false →
  truthy (prop (cell (tw (run_script req res s (Turn (log w1 (EvMiddleware (MFun f))) hs1 None)))
                  res) "error") = false →
  let E := SerializableError handlers_must_be_functions in
  let stack := pre ++ MFun f :: post in
  (∃ w2 hs,
     _runAllMiddleware req res stack w = (w2, Some (E, true, hs)) ∧
     trace w2 = trace w1 ++ [EvMiddleware (MFun f)]) ∧
  (Forall (λ a, spares_error a = true) rest →
   ∃ w3,
     deliver res (_processRequest stack req res w)
     = (w3, Some (TypeError_not_a_function, VObj res)) ∧
     prop (cell w3 res) "error" = serializeError E ∧
     has_prop (cell w3 res) "result" = false ∧
     trace w3 = trace w1 ++ [EvMiddleware (MFun f)]).
Proof.
  intros Hne Hpre Hscript Hwrites Hh Hfun Herr E stack.
  set (t0 := Turn (log w1 (EvMiddleware (MFun f))) hs1 None) in *.
  set (t := run_script req res s t0) in *.
  destruct (run_script_writes_state req res s Hwrites t0) as [Hhs Hsettled].
  fold t in Hhs, Hsettled. simpl in Hhs, Hsettled.
  set (t2 := Turn (set_prop (tw t) res "error" (serializeError E)) (hs1 ++ [h]) (Some (E, true))).
  assert (Hnext : next_ res h t = t2).
  { unfold next_. rewrite Herr, Hh, Hfun. simpl negb. cbv iota.
    rewrite end__truthy by done. unfold returnHandlers_push, resolve. simpl. by rewrite Hhs. }
  assert (Hturn : _runMiddleware req res (MFun f) w1 hs1 = run_script req res rest t2).
  { simpl. rewrite Hscript, (run_script_writes req res s Hwrites). fold t0. fold t.
    simpl. by rewrite Hnext. }
  assert (Hdone : settled (run_script req res rest t2) = Some (E, true)).
  { by apply settled_run_script_some. }
  assert (Htrace : trace (tw (run_script req res rest t2)) = trace w1 ++ [EvMiddleware (MFun f)]).
  { rewrite trace_run_script. simpl. unfold t. by rewrite trace_run_script. }
  assert (Hall : _runAllMiddleware req res stack w =
                 (tw (run_script req res rest t2),
                  Some (E, true, rev (handlers (run_script req res rest t2))))).
  { unfold _runAllMiddleware, stack. rewrite (for_middleware_app _ _ _ _ _ _ _ _ _ _ Hpre).
    rewrite for_middleware_cons, Hturn, Hdone. reflexivity. }
  split.
  { eexists _, _. split; [exact Hall | exact Htrace]. }
  intros Hrest.
  destruct (run_script_spares_error req res rest Hne Hrest t2) as (Hhs2 & _ & Hkeep).
  simpl in Hhs2, Hkeep. rewrite cell_set_prop_eq, lookup_insert_eq in Hkeep.
  unfold _processRequest. rewrite Hall, Hhs2, rev_app_distr. simpl rev. simpl app.
  unfold _checkForCompletion. rewrite (has_prop_lookup _ _ _ Hkeep), andb_false_r. simpl.
  unfold _runReturnHandlers. simpl. rewrite (call_handler_not_function _ _ _ _ Hfun).
  destruct (deliver_rejected res (tw (run_script req res rest t2)) TypeError_not_a_function)
    as (w3 & Hdel & Hres & Herr3 & _ & Htr3); [done |].
  exists w3. rewrite Hdel. repeat split; auto.
  - rewrite Herr3, (prop_lookup _ _ _ Hkeep). reflexivity.
  - by rewrite Htr3.
Qed.

Lemma C8_witness :
  let f : obj → obj → list action :=
    λ _ _, [ASet Res "partial" (VNum 1); ANext (VNum 42); ASet Res "result" (VNum 2)] in
  let E := SerializableError handlers_must_be_functions in
  let stack := [Examples.passes] ++ MFun f :: [Examples.fixed_result (VNum 42)] in
  let w1 := log Examples.work (EvMiddleware Examples.passes) in
  (∃ w2 hs,
     _runAllMiddleware Examples.work_req Examples.work_res stack Examples.work
     = (w2, Some (E, true, hs)) ∧
     trace w2 = trace w1 ++ [EvMiddleware (MFun f)]) ∧
  (Forall (λ a, spares_error a = true) [ASet Res "result" (VNum 2)] →
   ∃ w3,
     deliver Examples.work_res
       (_processRequest stack Examples.work_req Examples.work_res Examples.work)
     = (w3, Some (TypeError_not_a_function, VObj Examples.work_res)) ∧
     prop (cell w3 Examples.work_res) "error" = serializeError E ∧
     has_prop (cell w3 Examples.work_res) "result" = false ∧
     trace w3 = trace w1 ++ [EvMiddleware (MFun f)]).
Proof.
  intros f E stack w1.
  apply (C8_non_function_return_handler Examples.work_req Examples.work_res [Examples.passes]
           f [Examples.fixed_result (VNum 42)] Examples.work w1 VNull []
           [ASet Res "partial" (VNum 1)] (VNum 42) [ASet Res "result" (VNum 2)]).
  - vm_compute. discriminate.
  - reflexivity.
  - reflexivity.
  - repeat constructor.
  - reflexivity.
  - reflexivity.
  - reflexivity.
Defined.

(** The engine error on the response of a whole dispatch. *)
Example non_function_handler_dispatch :
  let r := _handle [Examples.registers (VNum 42); Examples.fixed_result (VNum 1)]
             (VObj Examples.caller) Examples.w0 in
  r.2 = Some (TypeError_not_a_function, VObj Examples.work_res) ∧
  prop (cell r.1 Examples.work_res) "error"
  = serializeError (SerializableError handlers_must_be_functions) ∧
  middleware_events (trace r.1) = [Examples.registers (VNum 42)].
Proof. vm_compute. done. Qed.

(** C8 fails as stated: [0] is not a callable function, yet passing it to
    [next] is no error; the next middleware runs and the dispatch succeeds.
    The same holds of [null], [false] and the empty string. *)
Lemma C8_counterexample :
  let r := _handle [Examples.registers (VNum 0); Examples.fixed_result (VNum 42)]
             (VObj Examples.caller) Examples.w0 in
  is_function (VNum 0) = false ∧
  r.2 = Some (VNull, VObj Examples.work_res) ∧
  has_prop (cell r.1 Examples.work_res) "error" = false ∧
  prop (cell r.1 Examples.work_res) "result" = VNum 42.
Proof. vm_compute. done. Qed.

(** ** C7: an engine nested through asMiddleware *)

(** The validation of [_handle] does not look at the stack. *)
Lemma _handle_malformed_any_stack stack stack' callerReq w :
  well_formed w callerReq = false → _handle stack callerReq w = _handle stack' callerReq w.
Proof.
  unfold well_formed, _handle. rewrite plain_object_test.
  destruct (plain_object callerReq); simpl; [intros -> |]; reflexivity.
Qed.

Lemma end__no_error res t :
  has_prop (cell (tw t) res) "error" = false → settled t = None →
  end_ res VUndef t = Turn (tw t) (handlers t) (Some (VUndef, true)).
Proof.
  intros Herr Hs. unfold end_, js_or, resolve. simpl.
  assert (Hp : prop (cell (tw t) res) "error" = VUndef).
  { unfold has_prop in Herr. apply bool_decide_eq_false in Herr. unfold prop.
    destruct (cell (tw t) res !! "error"); [exfalso; eauto | done]. }
  rewrite Hp. simpl. by rewrite Hs.
Qed.

(** The turn of [res.result = v; end()] on a response without error. *)
Lemma fixed_result_turn req res v w hs :
  has_prop (cell w res) "error" = false →
  _runMiddleware req res (Examples.fixed_result v) w hs =
  Turn (set_prop (log w (EvMiddleware (Examples.fixed_result v))) res "result" v) hs
       (Some (VUndef, true)).
Proof.
  intros Herr. simpl. unfold end_, on_world, js_or. simpl.
  rewrite cell_set_prop_eq, (prop_insert_ne _ "result" "error") by done.
  unfold has_prop in Herr. apply bool_decide_eq_false in Herr.
  unfold prop. destruct (cell (log w _) res !! "error") eqn:E.
  - exfalso. apply Herr. unfold cell in *. simpl in E. eauto.
  - reflexivity.
Qed.

(** C7.  Let the inner engine have the single middleware
    [res.result = v; end()].  For every request, the outer engine whose
    sole middleware is [asMiddleware] of the inner one calls back with the
    same error and the same response as the inner engine run directly, and
    leaves the same store; for a well-formed request that response carries
    the result [v] and no error, and the callback gets no error. *)
Theorem C7_nested_engine v callerReq w :
  let inner := [Examples.fixed_result v] in
  let outer := [asMiddleware inner] in
  (_handle outer callerReq w).2 = (_handle inner callerReq w).2 ∧
  heap (_handle outer callerReq w).1 = heap (_handle inner callerReq w).1 ∧
  (well_formed w callerReq = true →
   ∃ res, (_handle outer callerReq w).2 = Some (VNull, VObj res) ∧
          heap w !! res = None ∧
          prop (cell (_handle outer callerReq w).1 res) "result" = v ∧
          has_prop (cell (_handle outer callerReq w).1 res) "error" = false ∧
          prop (cell (_handle outer callerReq w).1 res) "id" = get w callerReq "id" ∧
          prop (cell (_handle outer callerReq w).1 res) "jsonrpc" = get w callerReq "jsonrpc").
Proof.
  intros inner outer. destruct (well_formed w callerReq) eqn:Hwf.
  2: { rewrite (_handle_malformed_any_stack outer inner _ _ Hwf). done. }
  rewrite !(_handle_well_formed _ _ _ Hwf).
  destruct (new_request_response w callerReq) as [[req res] w2] eqn:Hnew.
  destruct (new_request_response_spec _ _ _ _ _ Hnew)
    as (_ & Hfresh & Hne & _ & _ & Hcell & _).
  assert (Hno : ∀ e, has_prop (cell (log w2 e) res) "error" = false).
  { intros e. rewrite cell_log, Hcell. reflexivity. }
  set (done_ := λ w', set_prop w' res "result" v).
  assert (Hchecked : ∀ w', _checkForCompletion (done_ w') req res true = None).
  { intros w'. unfold _checkForCompletion, done_.
    by rewrite cell_set_prop_eq, has_prop_insert. }
  assert (Hall : ∀ w', has_prop (cell w' res) "error" = false →
            _runAllMiddleware req res inner w' =
            (done_ (log w' (EvMiddleware (Examples.fixed_result v))), Some (VUndef, true, []))).
  { intros w' Hw'. unfold _runAllMiddleware, inner.
    rewrite for_middleware_cons, fixed_result_turn by done. reflexivity. }
  assert (Hinner : _processRequest inner req res w2 =
                   (done_ (log w2 (EvMiddleware (Examples.fixed_result v))), Fulfilled tt)).
  { unfold _processRequest. rewrite Hall by (rewrite Hcell; reflexivity).
    by rewrite Hchecked. }
  assert (Houter : _processRequest outer req res w2 =
                   (done_ (log (log w2 (EvMiddleware (asMiddleware inner)))
                              (EvMiddleware (Examples.fixed_result v))), Fulfilled tt)).
  { unfold _processRequest, _runAllMiddleware, outer, asMiddleware.
    rewrite for_middleware_cons, _runMiddleware_engine. cbv zeta. simpl tw.
    rewrite Hall by apply Hno. cbn [rev _runReturnHandlers for_handlers].
    rewrite end__no_error; [| | done].
    - simpl. by rewrite Hchecked.
    - simpl. unfold done_. rewrite cell_set_prop_eq.
      rewrite (has_prop_insert_ne _ "result" "error") by done. apply Hno. }
  rewrite Hinner, Houter. simpl. split; [done |]. split; [done |].
  intros _. exists res. unfold done_.
  rewrite cell_set_prop_eq, !cell_log, Hcell, !get_spread.
  repeat split; auto.
Qed.

Lemma C7_witness :
  let inner := [Examples.fixed_result (VStr "fixed")] in
  let outer := [asMiddleware inner] in
  let callerReq := VObj Examples.caller in
  (_handle outer callerReq Examples.w0).2 = (_handle inner callerReq Examples.w0).2 ∧
  heap (_handle outer callerReq Examples.w0).1 = heap (_handle inner callerReq Examples.w0).1 ∧
  (well_formed Examples.w0 callerReq = true →
   ∃ res, (_handle outer callerReq Examples.w0).2 = Some (VNull, VObj res) ∧
          heap Examples.w0 !! res = None ∧
          prop (cell (_handle outer callerReq Examples.w0).1 res) "result" = VStr "fixed" ∧
          has_prop (cell (_handle outer callerReq Examples.w0).1 res) "error" = false ∧
          prop (cell (_handle outer callerReq Examples.w0).1 res) "id"
          = get Examples.w0 callerReq "id" ∧
          prop (cell (_handle outer callerReq Examples.w0).1 res) "jsonrpc"
          = get Examples.w0 callerReq "jsonrpc").
Proof.
  exact (C7_nested_engine (VStr "fixed") (VObj Examples.caller) Examples.w0).
Defined.

(** An inner engine that does not complete the response defers its return
    handlers to the outer engine, which runs them in turn. *)
Example nested_engine_defers_handlers :
  let inner := [Examples.registers (Examples.marker 1); Examples.registers (Examples.marker 2)] in
  let outer := [asMiddleware inner; Examples.fixed_result (VNum 42)] in
  let r := _handle outer (VObj Examples.caller) Examples.w0 in
  r.2 = Some (VNull, VObj Examples.work_res) ∧
  prop (cell r.1 Examples.work_res) "result" = VNum 42 ∧
  handler_events (trace r.1)
  = [VEngineHandler [Examples.marker 2; Examples.marker 1];
     Examples.marker 2; Examples.marker 1].
Proof. vm_compute. done. Qed.

(** ** Independence: a dispatch depends only on the contents of its request *)

Section Simulation.
Variables req res req' res' : loc.
Hypothesis req_res : req ≠ res.
Hypothesis req_res' : req' ≠ res'.

(** The request and the response of one run hold what those of the other
    run hold. *)
Let sim (w w' : world) : Prop :=
  cell w req = cell w' req' ∧ cell w res = cell w' res'.

Let tsim (t t' : turn) : Prop :=
  sim (tw t) (tw t') ∧ handlers t = handlers t' ∧ settled t = settled t'.

Let psim (p p' : world * outcome unit) : Prop := sim p.1 p'.1 ∧ p.2 = p'.2.

Lemma sim_set_prop tg k v w w' :
  sim w w' →
  sim (set_prop w (target_loc req res tg) k v) (set_prop w' (target_loc req' res' tg) k v).
Proof using req_res req_res'.
  intros [Hreq Hres]. unfold sim. destruct tg; simpl.
  - rewrite !cell_set_prop_eq, !cell_set_prop_ne by done. by rewrite Hreq.
  - rewrite !cell_set_prop_eq, !cell_set_prop_ne by done. by rewrite Hres.
Qed.

Lemma sim_delete_prop tg k w w' :
  sim w w' →
  sim (delete_prop w (target_loc req res tg) k) (delete_prop w' (target_loc req' res' tg) k).
Proof using req_res req_res'.
  intros [Hreq Hres]. unfold sim. destruct tg; simpl.
  - rewrite !cell_delete_prop_eq, !cell_delete_prop_ne by done. by rewrite Hreq.
  - rewrite !cell_delete_prop_eq, !cell_delete_prop_ne by done. by rewrite Hres.
Qed.

Lemma tsim_resolve r t t' : tsim t t' → tsim (resolve r t) (resolve r t').
Proof.
  intros (Hw & Hh & Hs). unfold resolve. rewrite <- Hs.
  destruct (settled t) eqn:E; unfold tsim; simpl; rewrite ?E; auto.
Qed.

Lemma tsim_end_ err t t' : tsim t t' → tsim (end_ res err t) (end_ res' err t').
Proof using req_res req_res'.
  intros Ht. pose proof Ht as ([Hreq Hres] & Hh & Hs). unfold end_.
  rewrite <- Hres. apply tsim_resolve. destruct (truthy _); [| done].
  split; [| done]. simpl. apply (sim_set_prop Res). by split.
Qed.

Lemma tsim_push h t t' : tsim t t' → tsim (returnHandlers_push h t) (returnHandlers_push h t').
Proof. intros (Hw & Hh & Hs). unfold tsim, returnHandlers_push. simpl. by rewrite Hh. Qed.

Lemma tsim_next_ h t t' : tsim t t' → tsim (next_ res h t) (next_ res' h t').
Proof using req_res req_res'.
  intros Ht. pose proof Ht as ([Hreq Hres] & Hh & Hs). unfold next_. rewrite <- Hres.
  destruct (truthy (prop _ _)); [by apply tsim_end_ |].
  apply tsim_resolve. destruct (truthy h); [| done].
  apply tsim_push. destruct (negb _); [by apply tsim_end_ | done].
Qed.

Lemma tsim_run_script s :
  ∀ t t', tsim t t' → tsim (run_script req res s t) (run_script req' res' s t').
Proof using req_res req_res'.
  induction s as [| a s IH]; intros t t' Ht; simpl; [done |].
  destruct a; try apply IH; auto using tsim_next_, tsim_end_.
  - destruct Ht as (Hw & Hh & Hs). split; [| done]. by apply sim_set_prop.
  - destruct Ht as (Hw & Hh & Hs). split; [| done]. by apply sim_delete_prop.
Qed.

Lemma psim_settle r p p' : psim p p' → psim (settle r p) (settle r p').
Proof.
  intros [Hw Ho]. unfold settle. rewrite <- Ho.
  destruct p.2 eqn:E; unfold psim; simpl; rewrite ?E; auto.
Qed.

Lemma psim_run_hscript s :
  ∀ p p', psim p p' → psim (run_hscript req res s p) (run_hscript req' res' s p').
Proof using req_res req_res'.
  induction s as [| a s IH]; intros p p' Hp; simpl; [done |].
  destruct a; try apply IH; try (by apply psim_settle).
  - destruct Hp as [Hw Ho]. split; [| done]. by apply sim_set_prop.
  - destruct Hp as [Hw Ho]. split; [| done]. by apply sim_delete_prop.
Qed.

Lemma psim_for_handlers call call' hs :
  Forall (λ h, ∀ w w', sim w w' → psim (call h w) (call' h w')) hs →
  ∀ w w', sim w w' → psim (for_handlers call hs w) (for_handlers call' hs w').
Proof.
  induction 1 as [| h hs Hh _ IH]; intros w w' Hw; simpl; [done |].
  destruct (Hh w w' Hw) as [Hw1 Ho1].
  destruct (call h w) as [w1 o1], (call' h w') as [w1' o1']. simpl in *. subst o1'.
  destruct o1 as [[] | e |]; [by apply IH | done | done].
Qed.

Lemma psim_call_handler h :
  ∀ w w', sim w w' → psim (call_handler req res h w) (call_handler req' res' h w').
Proof using req_res req_res'.
  induction h as [body | hs IH | v Hv] using handler_nested_ind; intros w w' Hw.
  - simpl. by apply psim_run_hscript.
  - simpl.
    destruct (psim_for_handlers _ _ hs IH (log w (EvHandler (VEngineHandler hs)))
                (log w' (EvHandler (VEngineHandler hs))) Hw) as [Hw1 Ho1].
    destruct (for_handlers (call_handler req res) hs _) as [w1 o1],
             (for_handlers (call_handler req' res') hs _) as [w1' o1'].
    simpl in *. subst o1'. destruct o1 as [[] | e |]; try done; by apply psim_settle.
  - destruct v; try discriminate; done.
Qed.

Lemma psim__runReturnHandlers hs w w' :
  sim w w' → psim (_runReturnHandlers req res hs w) (_runReturnHandlers req' res' hs w').
Proof using req_res req_res'.
  apply psim_for_handlers. apply Forall_forall. intros h _. apply psim_call_handler.
Qed.

Lemma sim_for_middleware run run' stack :
  Forall (λ m, ∀ w w' hs, sim w w' → tsim (run m w hs) (run' m w' hs)) stack →
  ∀ w w' hs error isComplete,
    sim w w' →
    sim (for_middleware run stack w hs error isComplete).1
        (for_middleware run' stack w' hs error isComplete).1 ∧
    (for_middleware run stack w hs error isComplete).2
    = (for_middleware run' stack w' hs error isComplete).2.
Proof.
  induction 1 as [| m stack Hm _ IH]; intros w w' hs error isComplete Hw; simpl; [done |].
  destruct (Hm w w' hs Hw) as (Hw1 & Hh1 & Hs1). rewrite <- Hs1, <- Hh1.
  destruct (settled (run m w hs)) as [[e []] |]; simpl; auto.
Qed.

Lemma tsim__runMiddleware m :
  ∀ w w' hs, sim w w' →
             tsim (_runMiddleware req res m w hs) (_runMiddleware req' res' m w' hs).
Proof using req_res req_res'.
  induction m as [f | stack IH] using middleware_nested_ind; intros w w' hs Hw.
  - simpl. destruct Hw as [Hreq Hres]. rewrite <- Hreq, <- Hres.
    apply tsim_run_script. by repeat split.
  - simpl.
    destruct (sim_for_middleware _ _ stack IH (log w (EvMiddleware (MEngine stack)))
                (log w' (EvMiddleware (MEngine stack))) [] VNull false Hw) as [Hw1 Ho1].
    destruct (for_middleware (_runMiddleware req res) stack _ [] VNull false) as [w1 o1],
             (for_middleware (_runMiddleware req' res') stack _ [] VNull false) as [w1' o1'].
    simpl in *. subst o1'.
    destruct o1 as [[[e c] ihs] |]; simpl; [| split; [exact Hw1 | done]].
    destruct c.
    + destruct (psim__runReturnHandlers (rev ihs) w1 w1' Hw1) as [Hw2 Ho2].
      destruct (_runReturnHandlers req res (rev ihs) w1) as [w2 o2],
               (_runReturnHandlers req' res' (rev ihs) w1') as [w2' o2'].
      simpl in *. subst o2'.
      destruct o2 as [[] | e' |]; try apply tsim_end_; (split; [exact Hw2 | done]).
    + apply tsim_next_. split; [exact Hw1 | done].
Qed.

Lemma sim__processRequest stack w w' :
  sim w w' → psim (_processRequest stack req res w) (_processRequest stack req' res' w').
Proof using req_res req_res'.
  intros Hw. unfold _processRequest, _runAllMiddleware.
  assert (Hstack : Forall (λ m, ∀ w w' hs, sim w w' →
            tsim (_runMiddleware req res m w hs) (_runMiddleware req' res' m w' hs)) stack).
  { apply Forall_forall. intros m _. apply tsim__runMiddleware. }
  destruct (sim_for_middleware _ _ stack Hstack w w' [] VNull false Hw) as [Hw1 Ho1].
  destruct (for_middleware (_runMiddleware req res) stack w [] VNull false) as [w1 o1],
           (for_middleware (_runMiddleware req' res') stack w' [] VNull false) as [w1' o1'].
  simpl in *. subst o1'. destruct o1 as [[[e c] raw] |]; simpl; [| done].
  assert (Hcheck : _checkForCompletion w1 req res c = _checkForCompletion w1' req' res' c).
  { unfold _checkForCompletion. destruct Hw1 as [_ Hres]. by rewrite Hres. }
  rewrite <- Hcheck. destruct (_checkForCompletion w1 req res c); [done |].
  destruct (psim__runReturnHandlers (rev raw) w1 w1' Hw1) as [Hw2 Ho2].
  destruct (_runReturnHandlers req res (rev raw) w1) as [w2 o2],
           (_runReturnHandlers req' res' (rev raw) w1') as [w2' o2'].
  simpl in *. subst o2'. destruct o2 as [[] | e' |]; try destruct (truthy e); done.
Qed.

Lemma sim_deliver r r' :
  psim r r' →
  match (deliver res r).2, (deliver res' r').2 with
  | Some (e, v), Some (e', v') =>
      e = e' ∧ v = VObj res ∧ v' = VObj res' ∧
      cell (deliver res r).1 res = cell (deliver res' r').1 res'
  | None, None => True
  | _, _ => False
  end.
Proof using req_res req_res'.
  destruct r as [w o], r' as [w' o']. intros [Hw Ho]. simpl in *. subst o'.
  destruct o as [[] | e |]; simpl; [by destruct Hw | | done].
  repeat split; auto. destruct (truthy e); [| by destruct Hw].
  pose proof (sim_delete_prop Res "result" w w' Hw) as Hd. simpl in Hd.
  destruct Hd as [Hd1 Hd2]. rewrite <- Hd2. destruct (negb _); [| done].
  apply (sim_set_prop Res). by split.
Qed.

End Simulation.





(** ** C6: batches *)













(** The batch of the three requests: the second item throws, and the
    responses are, in order, a result, an error, a result. *)
Example batch_with_a_failing_item :
  let r := _handleBatch [Examples.picky] Examples.batch Examples.batch_world in
  let r0 := VObj 5%positive in
  let r1 := VObj 7%positive in
  let r2 := VObj 9%positive in
  r.2 = Fulfilled [r0; r1; r2] ∧
  get r.1 r0 "id" = VNum 10 ∧ get r.1 r0 "result" = VNum 10 ∧
  get r.1 r0 "error" = VUndef ∧
  get r.1 r1 "id" = VNum 11 ∧ get r.1 r1 "error" = serializeError (VStr "boom") ∧
  has_prop (spread r.1 r1) "result" = false ∧
  get r.1 r2 "id" = VNum 12 ∧ get r.1 r2 "result" = VNum 12 ∧
  get r.1 r2 "error" = VUndef.
Proof. repeat split; reflexivity. Qed.

(** * Further properties of the engine *)

(** ** The order of invocation *)

Lemma trace__runMiddleware_plain req res f w hs :
  trace (tw (_runMiddleware req res (MFun f) w hs)) = trace w ++ [EvMiddleware (MFun f)].
Proof. simpl. by rewrite trace_run_script. Qed.

Lemma for_middleware_plain_trace req res stack :
  Forall plain_middleware stack →
  ∀ w hs error isComplete,
    ∃ n : nat, (n ≤ length stack)%nat ∧
         trace (for_middleware (_runMiddleware req res) stack w hs error isComplete).1
         = trace w ++ map EvMiddleware (take n stack) ∧
         (stack ≠ [] → (0 < n)%nat) ∧
         (∀ e raw,
            (for_middleware (_runMiddleware req res) stack w hs error isComplete).2
            = Some (e, false, raw) → n = length stack).
Proof.
  induction 1 as [| m stack [f ->] _ IH]; intros w hs error isComplete.
  - exists 0. simpl. rewrite app_nil_r. repeat split; auto; done.
  - rewrite for_middleware_cons.
    pose proof (trace__runMiddleware_plain req res f w hs) as Htr.
    destruct (settled (_runMiddleware req res (MFun f) w hs)) as [[e' []] |].
    + exists 1. cbn [take map length fst snd]. rewrite take_0.
      repeat split; [lia | exact Htr | lia | discriminate].
    + destruct (IH (tw (_runMiddleware req res (MFun f) w hs))
                  (handlers (_runMiddleware req res (MFun f) w hs)) e' false)
        as (n & Hn & Htrace & _ & Hall).
      exists (S n). cbn [take map length].
      repeat split; [lia | | lia |].
      * rewrite Htrace, Htr, <- app_assoc. reflexivity.
      * intros e raw Hr. f_equal. eauto.
    + exists 1. cbn [take map length fst snd]. rewrite take_0.
      repeat split; [lia | exact Htr | lia | discriminate].
Qed.

(** X1.  The middleware of a stack of plain functions are invoked in the
    order of the stack, each at most once, and without gaps: the middleware
    invoked are the first [n] of the stack, [n] being the whole length when
    the stack is exhausted without being ended, and at least one when the
    stack is not empty. *)
Theorem middleware_run_in_stack_order req res stack w :
  Forall plain_middleware stack →
  ∃ n : nat, (n ≤ length stack)%nat ∧
       trace (_runAllMiddleware req res stack w).1
       = trace w ++ map EvMiddleware (take n stack) ∧
       (stack ≠ [] → (0 < n)%nat) ∧
       (∀ e hs, (_runAllMiddleware req res stack w).2 = Some (e, false, hs) →
                n = length stack).
Proof.
  intros Hplain. unfold _runAllMiddleware.
  destruct (for_middleware_plain_trace req res stack Hplain w [] VNull false)
    as (n & Hn & Htrace & Hpos & Hall).
  exists n. rewrite fst_reverse_handlers. repeat split; auto.
  intros e hs Hr.
  destruct (for_middleware (_runMiddleware req res) stack w [] VNull false)
    as [w1 [[[e1 c1] raw] |]]; simpl in Hr; [| discriminate].
  injection Hr as <- -> _. by apply (Hall e1 raw).
Qed.

Lemma middleware_run_in_stack_order_witness :
  let stack := [Examples.passes; Examples.fixed_result (VNum 1); Examples.silent] in
  ∃ n : nat, (n ≤ length stack)%nat ∧
       trace (_runAllMiddleware Examples.work_req Examples.work_res stack Examples.work).1
       = trace Examples.work ++ map EvMiddleware (take n stack) ∧
       (stack ≠ [] → (0 < n)%nat) ∧
       (∀ e hs,
          (_runAllMiddleware Examples.work_req Examples.work_res stack Examples.work).2
          = Some (e, false, hs) → n = length stack).
Proof.
  intros stack.
  apply (middleware_run_in_stack_order Examples.work_req Examples.work_res stack Examples.work).
  repeat (apply Forall_cons_2; [eexists; reflexivity |]). apply Forall_nil_2.
Defined.

(** ** Signals: the first one decides, a falsy one is no error *)

Lemma settled_run_script_app req res s1 s2 r :
  ∀ t, settled (run_script req res s1 t) = Some r →
       settled (run_script req res (s1 ++ s2) t) = Some r.
Proof.
  induction s1 as [| a s1 IH]; intros t; simpl.
  - intros Hs. by apply settled_run_script_some.
  - destruct a; auto.
Qed.

(** X2.  The promise of a turn is resolved once: as soon as a first part
    of the script of a middleware has resolved it with [[error,
    isComplete]], this is the outcome of the turn, whatever calls of [next]
    or [end] and whatever throw follow in the same turn. *)
Theorem first_signal_decides req res f w hs s1 s2 r :
  f (cell w req) (cell w res) = s1 ++ s2 →
  settled (run_script req res s1 (Turn (log w (EvMiddleware (MFun f))) hs None)) = Some r →
  settled (_runMiddleware req res (MFun f) w hs) = Some r.
Proof.
  intros Hscript Hfirst. simpl. rewrite Hscript. by apply settled_run_script_app.
Qed.

Lemma first_signal_decides_witness :
  let f : obj → obj → list action :=
    λ _ _, [ASet Res "result" (VNum 1); ANext VUndef; AEnd (VStr "late"); AThrow (VStr "later")] in
  settled (_runMiddleware Examples.work_req Examples.work_res (MFun f) Examples.work [])
  = Some (VNull, false).
Proof.
  intros f.
  apply (first_signal_decides Examples.work_req Examples.work_res f Examples.work []
           [ASet Res "result" (VNum 1); ANext VUndef]
           [AEnd (VStr "late"); AThrow (VStr "later")] (VNull, false)).
  - reflexivity.
  - reflexivity.
Defined.

(** X3.  Passing a falsy value to [next] is the same as calling [next()]:
    nothing is pushed among the return handlers and no error is raised,
    wherever in the script the call stands. *)
Theorem next_falsy_is_next req res h s rest t :
  truthy h = false →
  run_script req res (s ++ ANext h :: rest) t
  = run_script req res (s ++ ANext VUndef :: rest) t.
Proof.
  intros Hh. revert t. induction s as [| a s IH]; intros t; simpl.
  - unfold next_. by rewrite Hh.
  - destruct a; auto.
Qed.

Lemma next_falsy_is_next_witness :
  run_script Examples.work_req Examples.work_res
    ([ASet Res "result" (VNum 1)] ++ ANext (VStr "") :: [AEnd VUndef])
    (Turn Examples.work [] None)
  = run_script Examples.work_req Examples.work_res
      ([ASet Res "result" (VNum 1)] ++ ANext VUndef :: [AEnd VUndef])
      (Turn Examples.work [] None).
Proof.
  apply (next_falsy_is_next Examples.work_req Examples.work_res (VStr "")
           [ASet Res "result" (VNum 1)] [AEnd VUndef] (Turn Examples.work [] None)).
  reflexivity.
Defined.

(** X4.  A middleware that neither calls [next] nor [end] nor throws
    blocks the dispatch: once the stack reaches it, [_processRequest] stays
    pending, the callback of [_handle] is never called, no later middleware
    is invoked and no return handler runs. *)
Theorem silent_middleware_blocks req res pre f post w w1 e1 hs1 :
  for_middleware (_runMiddleware req res) pre w [] VNull false = (w1, Some (e1, false, hs1)) →
  Forall (λ a, is_write a = true) (f (cell w1 req) (cell w1 res)) →
  ∃ w2,
    _processRequest (pre ++ MFun f :: post) req res w = (w2, Pending) ∧
    deliver res (_processRequest (pre ++ MFun f :: post) req res w) = (w2, None) ∧
    trace w2 = trace w1 ++ [EvMiddleware (MFun f)].
Proof.
  intros Hpre Hwrites.
  set (t := _runMiddleware req res (MFun f) w1 hs1).
  assert (Hs : settled t = None).
  { unfold t. simpl.
    by destruct (run_script_writes_state req res _ Hwrites
                   (Turn (log w1 (EvMiddleware (MFun f))) hs1 None)) as [_ ->]. }
  assert (Hproc : _processRequest (pre ++ MFun f :: post) req res w = (tw t, Pending)).
  { unfold _processRequest, _runAllMiddleware.
    rewrite (for_middleware_app _ _ _ _ _ _ _ _ _ _ Hpre), for_middleware_cons.
    fold t. by rewrite Hs. }
  exists (tw t). rewrite Hproc. repeat split.
  apply trace__runMiddleware_plain.
Qed.

Lemma silent_middleware_blocks_witness :
  let w1 := log Examples.work (EvMiddleware Examples.passes) in
  let f : obj → obj → list action := λ _ _, [ASet Res "result" (VNum 1)] in
  let stack := [Examples.passes] ++ MFun f :: [Examples.fixed_result (VNum 2)] in
  ∃ w2,
    _processRequest stack Examples.work_req Examples.work_res Examples.work = (w2, Pending) ∧
    deliver Examples.work_res
      (_processRequest stack Examples.work_req Examples.work_res Examples.work) = (w2, None) ∧
    trace w2 = trace w1 ++ [EvMiddleware (MFun f)].
Proof.
  intros w1 f stack.
  apply (silent_middleware_blocks Examples.work_req Examples.work_res [Examples.passes] f
           [Examples.fixed_result (VNum 2)] Examples.work w1 VNull []).
  - reflexivity.
  - repeat constructor.
Defined.

Lemma end__falsy res e t :
  truthy e = false → truthy (prop (cell (tw t) res) "error") = false → settled t = None →
  end_ res e t = Turn (tw t) (handlers t) (Some (prop (cell (tw t) res) "error", true)).
Proof.
  intros He Herr Hs. unfold end_, js_or, resolve. rewrite He, Herr. simpl. by rewrite Hs.
Qed.

(** X5.  A falsy value passed to [end] or thrown is no error.  In a stack
    [pre ++ m :: post] where every middleware of [pre] calls [next], let the
    turn of [m] consist of writes followed by [end(e)] or [throw e] with a
    falsy [e], with no error on the response.  Then the stack halts
    complete and without error, the response being as the writes left it,
    and no middleware of [post] is invoked; if the response then has a
    result and no return handler was registered, the dispatch succeeds. *)
Theorem falsy_end_is_no_error req res pre f post w w1 e1 hs1 s last :
  for_middleware (_runMiddleware req res) pre w [] VNull false = (w1, Some (e1, false, hs1)) →
  f (cell w1 req) (cell w1 res) = s ++ [last] →
  Forall (λ a, is_write a = true) s →
  ends_turn_quietly last →
  truthy (prop (cell (tw (run_script req res s (Turn (log w1 (EvMiddleware (MFun f))) hs1 None)))
                  res) "error") = false →
  let w2 := tw (run_script req res s (Turn (log w1 (EvMiddleware (MFun f))) hs1 None)) in
  _runAllMiddleware req res (pre ++ MFun f :: post) w
  = (w2, Some (prop (cell w2 res) "error", true, rev hs1)) ∧
  trace w2 = trace w1 ++ [EvMiddleware (MFun f)] ∧
  (hs1 = [] → has_prop (cell w2 res) "result" = true →
   deliver res (_processRequest (pre ++ MFun f :: post) req res w)
   = (w2, Some (VNull, VObj res))).
Proof.
  intros Hpre Hscript Hwrites (e & He & Hlast) Herr w2.
  set (t0 := Turn (log w1 (EvMiddleware (MFun f))) hs1 None) in *.
  change (truthy (prop (cell w2 res) "error") = false) in Herr.
  destruct (run_script_writes_state req res s Hwrites t0) as [Hhs Hsettled].
  simpl in Hhs, Hsettled.
  assert (Hturn : _runMiddleware req res (MFun f) w1 hs1 =
                  Turn w2 hs1 (Some (prop (cell w2 res) "error", true))).
  { simpl. rewrite Hscript, (run_script_writes req res s Hwrites). fold t0.
    destruct Hlast as [-> | ->]; simpl; rewrite end__falsy by done; by rewrite Hhs. }
  assert (Hall : _runAllMiddleware req res (pre ++ MFun f :: post) w
                 = (w2, Some (prop (cell w2 res) "error", true, rev hs1))).
  { unfold _runAllMiddleware. rewrite (for_middleware_app _ _ _ _ _ _ _ _ _ _ Hpre).
    rewrite for_middleware_cons, Hturn. reflexivity. }
  split; [exact Hall |]. split.
  { unfold w2. rewrite trace_run_script. reflexivity. }
  intros -> Hres. unfold _processRequest. rewrite Hall. unfold _checkForCompletion.
  rewrite Hres. simpl. by rewrite Herr.
Qed.

Lemma falsy_end_is_no_error_witness :
  let w1 := log Examples.work (EvMiddleware Examples.passes) in
  let f : obj → obj → list action := λ _ _, [ASet Res "result" (VNum 1); AThrow VNull] in
  let stack := [Examples.passes] ++ MFun f :: [Examples.throws (VStr "boom")] in
  let w2 := tw (run_script Examples.work_req Examples.work_res [ASet Res "result" (VNum 1)]
                  (Turn (log w1 (EvMiddleware (MFun f))) [] None)) in
  _runAllMiddleware Examples.work_req Examples.work_res stack Examples.work
  = (w2, Some (prop (cell w2 Examples.work_res) "error", true, rev [])) ∧
  trace w2 = trace w1 ++ [EvMiddleware (MFun f)] ∧
  (@nil value = [] → has_prop (cell w2 Examples.work_res) "result" = true →
   deliver Examples.work_res
     (_processRequest stack Examples.work_req Examples.work_res Examples.work)
   = (w2, Some (VNull, VObj Examples.work_res))).
Proof.
  intros w1 f stack.
  apply (falsy_end_is_no_error Examples.work_req Examples.work_res [Examples.passes] f
           [Examples.throws (VStr "boom")] Examples.work w1 VNull []
           [ASet Res "result" (VNum 1)] (AThrow VNull)).
  - reflexivity.
  - reflexivity.
  - repeat constructor.
  - exists VNull. split; [reflexivity | by right].
  - reflexivity.
Defined.

(** ** Return handlers that fail *)

(** X6.  When the completion check has passed and a return handler fails
    with a truthy [e'], the callback receives [e']: the error of the
    middleware, if there was one, is not thrown again.  The response loses
    its result; it keeps the error it carries at that moment, if any, and
    gets the normalized [e'] otherwise.  No handler runs after the failing
    one. *)
Theorem return_handler_failure stack req res w w1 err isComplete hs w2 e' :
  _runAllMiddleware req res stack w = (w1, Some (err, isComplete, hs)) →
  _checkForCompletion w1 req res isComplete = None →
  _runReturnHandlers req res hs w1 = (w2, Rejected e') →
  truthy e' = true →
  ∃ w3,
    deliver res (_processRequest stack req res w) = (w3, Some (e', VObj res)) ∧
    has_prop (cell w3 res) "result" = false ∧
    prop (cell w3 res) "error" = js_or (prop (cell w2 res) "error") (serializeError e') ∧
    truthy (prop (cell w3 res) "error") = true ∧
    trace w3 = trace w2.
Proof.
  intros Hall Hcheck Hrh He'.
  unfold _processRequest. rewrite Hall, Hcheck, Hrh.
  destruct (deliver_rejected res w2 e' He') as (w3 & Hd & Hres & Herr & Htr & Htrace).
  exists w3. by rewrite Hd.
Qed.

Lemma return_handler_failure_witness :
  let failing := VFun [HCallback (VStr "late")] in
  let stack := [Examples.registers failing; Examples.ends_with (VStr "boom")] in
  let halted := _runAllMiddleware Examples.work_req Examples.work_res stack Examples.work in
  ∃ w3,
    deliver Examples.work_res
      (_processRequest stack Examples.work_req Examples.work_res Examples.work)
    = (w3, Some (VStr "late", VObj Examples.work_res)) ∧
    has_prop (cell w3 Examples.work_res) "result" = false ∧
    prop (cell w3 Examples.work_res) "error"
    = js_or (prop (cell (log halted.1 (EvHandler failing)) Examples.work_res) "error")
        (serializeError (VStr "late")) ∧
    truthy (prop (cell w3 Examples.work_res) "error") = true ∧
    trace w3 = trace (log halted.1 (EvHandler failing)).
Proof.
  intros failing stack halted.
  apply (return_handler_failure stack Examples.work_req Examples.work_res Examples.work
           halted.1 (VStr "boom") true [failing] (log halted.1 (EvHandler failing)) (VStr "late")).
  - reflexivity.
  - reflexivity.
  - reflexivity.
  - reflexivity.
Defined.

(** The callback is told the handler's error while the response keeps the
    error of the middleware. *)
Example handler_error_and_middleware_error :
  let failing := VFun [HCallback (VStr "late")] in
  let stack := [Examples.registers failing; Examples.ends_with (VStr "boom")] in
  let r := _handle stack (VObj Examples.caller) Examples.w0 in
  r.2 = Some (VStr "late", VObj Examples.work_res) ∧
  prop (cell r.1 Examples.work_res) "error" = serializeError (VStr "boom").
Proof. vm_compute. done. Qed.

(** ** What the engine writes on the response *)

(** X7.  The engine itself writes nothing on the response but its error,
    and deletes nothing but its result: any other property that no
    middleware and no return handler writes is, in the response handed to
    the callback, what it is in the response shell, that is the identifier
    or the version tag of the request, or absent. *)
Theorem engine_writes_only_error_and_result stack callerReq w k w' error response :
  well_formed w callerReq = true →
  k ≠ "error" → k ≠ "result" →
  never_writes Res k stack →
  _handle stack callerReq w = (w', Some (error, response)) →
  spread w' response !! k =
  (<["id" := get w callerReq "id"]> (<["jsonrpc" := get w callerReq "jsonrpc"]> ∅) : obj) !! k.
Proof.
  intros Hwf Hk1 Hk2 Hquiet. rewrite (_handle_well_formed _ _ _ Hwf).
  destruct (new_request_response w callerReq) as [[req res] w2] eqn:Hnew.
  destruct (new_request_response_spec _ _ _ _ _ Hnew)
    as (_ & _ & Hne & _ & _ & Hcell & _).
  pose proof (kept_deliver res k Hk1 Hk2 (_processRequest stack req res w2)) as Hd.
  pose proof (kept__processRequest req res k Hne Hk1 stack w2 Hquiet) as Hp.
  cbv beta in Hd, Hp. intros Hdel.
  assert (response = VObj res) as ->.
  { destruct (_processRequest stack req res w2) as [w3 [[] | e |]]; simpl in Hdel; congruence. }
  rewrite Hdel in Hd. simpl in *. rewrite Hd, Hp, Hcell, !get_spread. reflexivity.
Qed.

Lemma engine_writes_only_error_and_result_witness :
  let r := _handle [Examples.throws (VStr "boom")] (VObj Examples.caller) Examples.w0 in
  spread r.1 (VObj Examples.work_res) !! "id" =
  (<["id" := get Examples.w0 (VObj Examples.caller) "id"]>
     (<["jsonrpc" := get Examples.w0 (VObj Examples.caller) "jsonrpc"]> ∅) : obj) !! "id".
Proof.
  intros r.
  apply (engine_writes_only_error_and_result [Examples.throws (VStr "boom")]
           (VObj Examples.caller) Examples.w0 "id" r.1 (VStr "boom") (VObj Examples.work_res)).
  - reflexivity.
  - discriminate.
  - discriminate.
  - repeat constructor.
  - reflexivity.
Defined.

(** ** The two styles of [handle] *)

(** The callback that is only a flag in [handle] is one that returns. *)
Lemma handle_cb_returning stack req w :
  handle stack req true w =
  ((handle_cb stack req (λ _ _, None) w).1,
   match (handle_cb stack req (λ _ _, None) w).2.1 with
   | (error, response) :: _ => Called error response
   | [] => NotCalled
   end).
Proof.
  assert (Hsingle : isArray req = false →
            handle stack req true w =
            match _handle stack req w with
            | (w', Some (error, res)) => (w', Called error res)
            | (w', None) => (w', NotCalled)
            end ∧
            handle_cb stack req (λ _ _, None) w =
            match _handle stack req w with
            | (w', Some (error, res)) => (w', ([(error, res)], Fulfilled tt))
            | (w', None) => (w', ([], Pending))
            end).
  { by destruct req. }
  destruct req as [| | b | n | s | l | reqs | m | e | body | hs];
    try (destruct (Hsingle eq_refl) as [-> ->];
         by destruct (_handle stack _ w) as [w' [[error res] |]]).
  clear Hsingle. unfold handle, handle_cb, _handleBatch_cb, _handleBatch.
  destruct (map_promiseHandle stack reqs w) as [w' ps].
  by destruct (Promise_all ps) as [responses | e |].
Qed.


(** A batch callback that throws on the responses is called again, with
    what it threw. *)
Example throwing_batch_callback_is_called_again :
  (handle_cb [Examples.fixed_result (VNum 1)] (VArr [VObj Examples.caller])
     (λ error _, if truthy error then None else Some (VStr "oops")) Examples.w0).2
  = ([(VNull, VArr [VObj Examples.work_res]); (VStr "oops", VUndef)], Fulfilled tt).
Proof. reflexivity. Qed.

(** ** Requests with the same fields *)

(** X9.  The reply of [_handle] depends only on the fields of the request
    object: two request objects holding the same fields, in whatever
    stores and at whatever places, are answered with the same error and
    with responses of the same contents, or are both left unanswered. *)
Theorem same_fields_same_response stack l l' w w' :
  cell w l = cell w' l' →
  same_response (_handle stack (VObj l) w) (_handle stack (VObj l') w').
Proof.
  intros Hs.
  assert (Hwf' : well_formed w (VObj l) = well_formed w' (VObj l')).
  { unfold well_formed. simpl. by rewrite Hs. }
  destruct (well_formed w (VObj l)) eqn:Hwf; symmetry in Hwf'.
  - rewrite (_handle_well_formed _ _ _ Hwf), (_handle_well_formed _ _ _ Hwf').
    destruct (new_request_response w (VObj l)) as [[req res] w2] eqn:Hnew.
    destruct (new_request_response w' (VObj l')) as [[req' res'] w2'] eqn:Hnew'.
    destruct (new_request_response_spec _ _ _ _ _ Hnew)
      as (_ & _ & Hne & _ & Hreq & Hres & _).
    destruct (new_request_response_spec _ _ _ _ _ Hnew')
      as (_ & _ & Hne' & _ & Hreq' & Hres' & _).
    simpl in Hreq, Hres, Hreq', Hres'.
    assert (Hsim : cell w2 req = cell w2' req' ∧ cell w2 res = cell w2' res').
    { rewrite Hreq, Hres, Hreq', Hres', Hs. done. }
    pose proof (sim_deliver req res req' res' Hne Hne' _ _
                  (sim__processRequest req res req' res' Hne Hne' stack w2 w2' Hsim)) as Hd.
    unfold same_response.
    destruct (deliver res _) as [w4 [[e v] |]], (deliver res' _) as [w4' [[e' v'] |]];
      simpl in *; try done.
    destruct Hd as (-> & -> & -> & Hcell). done.
  - unfold same_response, well_formed, _handle, alloc in *. simpl in *.
    rewrite <- Hs in *. rewrite Hwf. simpl. by rewrite !cell_set_cell_eq.
Qed.

Lemma same_fields_same_response_witness :
  let w' := World (<[5%positive := Examples.request (VNum 7) (VStr "foo")]> ∅) [] in
  same_response (_handle [Examples.fixed_result (VNum 42)] (VObj Examples.caller) Examples.w0)
                (_handle [Examples.fixed_result (VNum 42)] (VObj 5%positive) w').
Proof.
  intros w'.
  apply (same_fields_same_response [Examples.fixed_result (VNum 42)] Examples.caller
           5%positive Examples.w0 w').
  reflexivity.
Defined.

(** ** Return handlers run after the stack *)

Lemma for_middleware_phases run stack :
  Forall (λ m, ∀ w hs,
            ∃ ms hr, trace (tw (run m w hs)) = trace w ++ map EvMiddleware ms ++ map EvHandler hr ∧
                     (hr ≠ [] → ∀ e, settled (run m w hs) ≠ Some (e, false))) stack →
  ∀ w hs error isComplete,
    ∃ ms hr,
      trace (for_middleware run stack w hs error isComplete).1
      = trace w ++ map EvMiddleware ms ++ map EvHandler hr ∧
      (hr ≠ [] → ∀ e raw,
         (for_middleware run stack w hs error isComplete).2 ≠ Some (e, false, raw)).
Proof.
  induction 1 as [| m stack Hm _ IH]; intros w hs error isComplete.
  - exists [], []. simpl. rewrite app_nil_r. by split.
  - rewrite for_middleware_cons. destruct (Hm w hs) as (ms1 & hr1 & Htr1 & Hstop1).
    destruct (settled (run m w hs)) as [[e' []] |] eqn:Hs.
    + exists ms1, hr1. simpl. split; [done | discriminate].
    + assert (hr1 = []) as ->.
      { destruct hr1; [done |]. exfalso. by apply (Hstop1 ltac:(done) e'). }
      destruct (IH (tw (run m w hs)) (handlers (run m w hs)) e' false)
        as (ms2 & hr2 & Htr2 & Hstop2).
      exists (ms1 ++ ms2), hr2. split; [| done].
      rewrite Htr2, Htr1. simpl. rewrite app_nil_r, map_app, !app_assoc. done.
    + exists ms1, hr1. simpl. split; [done | discriminate].
Qed.

Lemma _runMiddleware_phases req res m :
  ∀ w hs,
    ∃ ms hr,
      trace (tw (_runMiddleware req res m w hs))
      = trace w ++ map EvMiddleware ms ++ map EvHandler hr ∧
      (hr ≠ [] → ∀ e, settled (_runMiddleware req res m w hs) ≠ Some (e, false)).
Proof.
  induction m as [f | stack IH] using middleware_nested_ind; intros w hs.
  - exists [MFun f], []. rewrite trace__runMiddleware_plain. simpl.
    split; [done |]. by intros [].
  - rewrite _runMiddleware_engine. cbv zeta. unfold _runAllMiddleware.
    destruct (for_middleware_phases _ stack IH (log w (EvMiddleware (MEngine stack)))
                [] VNull false) as (ms & hr & Htr & Hstop).
    simpl tw.
    destruct (for_middleware (_runMiddleware req res) stack _ [] VNull false)
      as [w1 [[[e c] raw] |]]; simpl in Htr, Hstop |- *.
    + destruct c.
      * destruct (_runReturnHandlers_trace req res (rev raw) w1) as (ran & Hran & _).
        assert (Hfinal : trace (_runReturnHandlers req res (rev raw) w1).1
                         = trace w ++ map EvMiddleware (MEngine stack :: ms)
                           ++ map EvHandler (hr ++ ran)).
        { rewrite Hran, Htr. simpl. rewrite map_app, <- !app_assoc. reflexivity. }
        exists (MEngine stack :: ms), (hr ++ ran).
        destruct (_runReturnHandlers req res (rev raw) w1) as [w2 [[] | e' |]];
          simpl in Hfinal |- *; rewrite ?trace_end_; simpl;
          (split; [exact Hfinal |]); intros _ e0;
          try (unfold end_, resolve; destruct (truthy _); simpl; discriminate); discriminate.
      * assert (hr = []) as ->.
        { destruct hr; [done |]. exfalso. by apply (Hstop ltac:(done) e raw). }
        exists (MEngine stack :: ms), []. rewrite trace_next_. simpl.
        split; [| done]. rewrite Htr. simpl. by rewrite <- !app_assoc.
    + exists (MEngine stack :: ms), hr. simpl. split; [| discriminate].
      rewrite Htr. simpl. by rewrite <- !app_assoc.
Qed.

(** X10.  Within one dispatch every invocation of a middleware comes
    before every call of a return handler, also through nested engines:
    the trace of [_handle] is a run of middleware invocations followed by a
    run of handler calls.  Once a return handler has been called, no
    middleware is invoked any more. *)
Theorem handlers_run_after_the_stack stack callerReq w :
  ∃ ms hr,
    trace (_handle stack callerReq w).1
    = trace w ++ map EvMiddleware ms ++ map EvHandler hr.
Proof.
  destruct (well_formed w callerReq) eqn:Hwf.
  2: { exists [], []. rewrite (_handle_malformed_trace _ _ _ Hwf). simpl.
       by rewrite app_nil_r. }
  rewrite (_handle_well_formed _ _ _ Hwf).
  destruct (new_request_response w callerReq) as [[req res] w2] eqn:Hnew.
  destruct (new_request_response_spec _ _ _ _ _ Hnew) as (_ & _ & _ & _ & _ & _ & Htr2 & _).
  assert (Hdel : ∀ r, trace (deliver res r).1 = trace r.1).
  { intros [w3 [[] | e |]]; simpl; try done.
    destruct (truthy e); [| done]. by destruct (negb _). }
  rewrite Hdel. unfold _processRequest, _runAllMiddleware.
  assert (Hstack : Forall (λ m, ∀ w hs,
            ∃ ms hr, trace (tw (_runMiddleware req res m w hs))
                     = trace w ++ map EvMiddleware ms ++ map EvHandler hr ∧
                     (hr ≠ [] → ∀ e, settled (_runMiddleware req res m w hs) ≠ Some (e, false)))
            stack).
  { apply Forall_forall. intros m _. apply _runMiddleware_phases. }
  destruct (for_middleware_phases _ stack Hstack w2 [] VNull false) as (ms & hr & Htr & _).
  rewrite Htr2 in Htr.
  destruct (for_middleware (_runMiddleware req res) stack w2 [] VNull false)
    as [w1 [[[e c] raw] |]]; simpl in Htr |- *; [| eauto].
  destruct (_checkForCompletion w1 req res c); [eauto |].
  destruct (_runReturnHandlers_trace req res (rev raw) w1) as (ran & Hran & _).
  exists ms, (hr ++ ran).
  assert (Hfinal : trace (_runReturnHandlers req res (rev raw) w1).1
                   = trace w ++ map EvMiddleware ms ++ map EvHandler (hr ++ ran)).
  { rewrite Hran, Htr, map_app, <- !app_assoc. reflexivity. }
  destruct (_runReturnHandlers req res (rev raw) w1) as [w2' [[] | e' |]];
    try destruct (truthy e); exact Hfinal.
Qed.

(** * Properties of storageAvailable *)

Lemma storage_catch_truthy error storageExists storageLength :
  truthy (storage_catch error storageExists storageLength) = true →
  truthy (thrown_value error) = true ∧ storageExists = true ∧
  is_number storageLength 0 = false.
Proof.
  unfold storage_catch.
  destruct (truthy (thrown_value error)) eqn:Ht; simpl.
  - intros H. apply andb_prop in H as [H Hl]. apply andb_prop in H as [_ He].
    repeat split; [exact He |]. by destruct (is_number storageLength 0).
  - intros H. congruence.
Qed.

(** X11. A truthy answer of [storageAvailable] needs a storage whose length
    can be read, and either a probe that went through or a storage that is
    not empty: a storage that is missing, cannot be looked up, or is empty
    and refuses the probe is never reported as available. *)
Theorem storage_available_needs_storage window_type :
  truthy (storageAvailable window_type) = true →
  ∃ st len, window_type = inr (Some st) ∧ storage_length st = inr len ∧
            (probe_failure st = None ∨ is_number len 0 = false).
Proof.
  unfold storageAvailable, probe_failure.
  destruct window_type as [error | [st |]].
  - intros H. by apply storage_catch_truthy in H as (_ & ? & _).
  - destruct (storage_length st) as [error | len] eqn:Hl.
    + intros H. by apply storage_catch_truthy in H as (_ & _ & ?).
    + intros H. exists st, len. split; [done |]. split; [done |]. rewrite Hl.
      destruct (storage_setItem st) as [error |].
      * right. by apply storage_catch_truthy in H as (_ & _ & ?).
      * destruct (storage_removeItem st) as [error |]; [| by left].
        right. by apply storage_catch_truthy in H as (_ & _ & ?).
  - intros H. by apply storage_catch_truthy in H as (_ & _ & ?).
Qed.

Lemma storage_available_needs_storage_witness :
  ∃ st len,
    (inr (Some (Storage (inr (VNum 3)) None None)) : thrown + option storage)
      = inr (Some st) ∧
    storage_length st = inr len ∧
    (probe_failure st = None ∨ is_number len 0 = false).
Proof.
  apply (storage_available_needs_storage
           (inr (Some (Storage (inr (VNum 3)) None None)))).
  reflexivity.
Defined.

(** X12. The name the catch block compares with is misspelt: a probe that
    fails with an error named QuotaExceededError, whose code is neither 22
    nor 1014, makes [storageAvailable] answer false even on a storage that
    is full. *)
Theorem quota_error_by_name_is_not_recognised st error :
  probe_failure st = Some error →
  thrown_name error = VStr "QuotaExceededError" →
  is_number (thrown_code error) 22 = false →
  is_number (thrown_code error) 1014 = false →
  truthy (storageAvailable (inr (Some st))) = false.
Proof.
  intros Hp Hn H22 H1014.
  assert (Hc : ∀ e l, truthy (storage_catch error e l) = false).
  { intros e l. unfold storage_catch. rewrite Hn, H22, H1014.
    destruct (truthy (thrown_value error)) eqn:Ht; simpl; [reflexivity | exact Ht]. }
  unfold storageAvailable. unfold probe_failure in Hp.
  destruct (storage_length st) as [e | len].
  - injection Hp as ->. apply Hc.
  - destruct (storage_setItem st) as [e |].
    + injection Hp as ->. apply Hc.
    + rewrite Hp. apply Hc.
Qed.

Lemma quota_error_by_name_is_not_recognised_witness :
  truthy (storageAvailable
            (inr (Some (Storage (inr (VNum 9))
                          (Some (Thrown (VError "full") VUndef
                                        (VStr "QuotaExceededError")))
                          None)))) = false.
Proof.
  apply (quota_error_by_name_is_not_recognised
           (Storage (inr (VNum 9))
              (Some (Thrown (VError "full") VUndef (VStr "QuotaExceededError")))
              None)
           (Thrown (VError "full") VUndef (VStr "QuotaExceededError")));
    reflexivity.
Defined.

(** X13. A storage that holds something and refuses the probe with a truthy
    error of code 22 or 1014 is reported as available, and so is every
    storage on which the probe goes through. *)
Theorem full_storage_is_available st len :
  storage_length st = inr len →
  (probe_failure st = None ∨
   ∃ error, probe_failure st = Some error ∧
            truthy (thrown_value error) = true ∧
            (is_number (thrown_code error) 22 = true ∨
             is_number (thrown_code error) 1014 = true) ∧
            is_number len 0 = false) →
  storageAvailable (inr (Some st)) = VBool true.
Proof.
  intros Hl H. unfold storageAvailable. unfold probe_failure in H. rewrite Hl in *.
  assert (Hc : ∀ error,
             truthy (thrown_value error) = true →
             is_number (thrown_code error) 22 = true ∨
             is_number (thrown_code error) 1014 = true →
             is_number len 0 = false →
             storage_catch error true len = VBool true).
  { intros error Ht Hcode Hlen. unfold storage_catch. rewrite Ht, Hlen. simpl.
    destruct Hcode as [-> | ->]; simpl; [reflexivity |].
    by rewrite orb_true_r. }
  destruct (storage_setItem st) as [e |].
  - destruct H as [H | (error & H & Ht & Hcode & Hlen)]; [discriminate |].
    injection H as ->. by apply Hc.
  - destruct (storage_removeItem st) as [e |]; [| reflexivity].
    destruct H as [H | (error & H & Ht & Hcode & Hlen)]; [discriminate |].
    injection H as ->. by apply Hc.
Qed.

Lemma full_storage_is_available_witness :
  storageAvailable
    (inr (Some (Storage (inr (VNum 9))
                  (Some (Thrown (VError "full") (VNum 22) (VStr "QuotaExceededError")))
                  None))) = VBool true.
Proof.
  apply (full_storage_is_available
           (Storage (inr (VNum 9))
              (Some (Thrown (VError "full") (VNum 22) (VStr "QuotaExceededError")))
              None)
           (VNum 9)).
  - reflexivity.
  - right. eexists. repeat split. left. reflexivity.
Defined.

(** * Properties of mimcsponge *)

Lemma Zp_laws p : (0 < p)%Z → field_laws (λ x, 0 ≤ x < p)%Z (Zp p).
Proof.
  intros Hp. split; simpl.
  - intros x. apply Z.mod_pos_bound. exact Hp.
  - intros x Hx. by apply Z.mod_small.
  - intros x Hx. by apply Z.mod_small.
  - intros a b _ _. apply Z.mod_pos_bound. exact Hp.
  - intros a n _. apply Z.mod_pos_bound. exact Hp.
  - intros a a' b Ha Ha' Hb H.
    assert (Hm : ∀ c, (0 ≤ c < p)%Z →
                 ((c + b) mod p = c + b ∨ (c + b) mod p = c + b - p)%Z).
    { intros c Hc. destruct (Z_lt_dec (c + b) p) as [Hlt | Hge].
      - left. apply Z.mod_small. lia.
      - right. symmetry. apply (Z.mod_unique_pos _ _ 1); lia. }
    assert (Hr : (0 ≤ (a + b) mod p < p)%Z) by (apply Z.mod_pos_bound; exact Hp).
    assert (Hr' : (0 ≤ (a' + b) mod p < p)%Z) by (apply Z.mod_pos_bound; exact Hp).
    destruct (Hm a Ha) as [E | E], (Hm a' Ha') as [E' | E']; lia.
Qed.

Section Mimc.
Variable C : Z → Prop.
Variable F : field.
Variable cts : nat → Z.
Hypothesis laws : field_laws C F.
Hypothesis constants : ∀ i, C (cts i).

Let element (x : Z * Z) : Prop := C x.1 ∧ C x.2.

Lemma mimc_round_element nRounds k i x :
  C k → element x → element (mimc_round F cts nRounds k i x).
Proof.
  intros Hk [HL HR]. destruct x as [xL xR]. simpl in HL, HR.
  assert (Ht : C (if (i =? 0)%nat then F_add F xL k
                  else F_add F (F_add F xL k) (cts i))).
  { destruct (i =? 0)%nat; repeat apply (add_element C F laws); auto. }
  unfold mimc_round.
  destruct (i <? nRounds - 1)%nat; split; simpl; try exact HL;
    apply (add_element C F laws);
    first [apply (e_element C F laws) | by apply (pow_element C F laws)].
Qed.

Lemma mimc_round_injective nRounds k i x y :
  C k → element x → element y →
  mimc_round F cts nRounds k i x = mimc_round F cts nRounds k i y → x = y.
Proof.
  intros Hk [HL HR] [HL' HR']. destruct x as [xL xR], y as [xL' xR'].
  simpl in HL, HR, HL', HR'. unfold mimc_round.
  assert (Hcancel : ∀ g, C g →
            F_add F (F_e F xR) g = F_add F (F_e F xR') g → xR = xR').
  { intros g Hg H. apply (add_cancel C F laws) in H;
      [| apply (e_element C F laws) | apply (e_element C F laws) | exact Hg].
    by rewrite !(e_id C F laws) in H. }
  assert (Ht : C (if (i =? 0)%nat then F_add F xL k
                  else F_add F (F_add F xL k) (cts i))).
  { destruct (i =? 0)%nat; repeat apply (add_element C F laws); auto. }
  destruct (i <? nRounds - 1)%nat; intros H; injection H as H1 H2; subst xL';
    (f_equal; eapply Hcancel; [| eassumption]; by apply (pow_element C F laws)).
Qed.

Lemma mimc_rounds_element nRounds k n : ∀ i x,
  C k → element x → element (mimc_rounds F cts nRounds k n i x).
Proof.
  induction n as [| n IH]; intros i x Hk Hx; simpl; [exact Hx |].
  apply IH; [exact Hk |]. by apply mimc_round_element.
Qed.

Lemma mimc_rounds_injective nRounds k n : ∀ i x y,
  C k → element x → element y →
  mimc_rounds F cts nRounds k n i x = mimc_rounds F cts nRounds k n i y → x = y.
Proof.
  induction n as [| n IH]; intros i x y Hk Hx Hy H; simpl in H; [exact H |].
  apply IH in H; try (by apply mimc_round_element); [| exact Hk].
  by apply mimc_round_injective in H.
Qed.

(** X14. [mimcHash] with a fixed key is one-to-one on the pairs of field
    elements: the rounds form a Feistel network, and each of them can be
    undone, whatever the round constants are. *)
Theorem mimcHash_injective xL xR xL' xR' k :
  C xL → C xR → C xL' → C xR' →
  mimcHash F cts xL xR k = mimcHash F cts xL' xR' k →
  xL = xL' ∧ xR = xR'.
Proof.
  intros HL HR HL' HR'. unfold mimcHash.
  rewrite (e_id C F laws xL HL), (e_id C F laws xR HR),
    (e_id C F laws xL' HL'), (e_id C F laws xR' HR').
  assert (Hk : C (F_e F k)) by apply (e_element C F laws).
  pose proof (mimc_rounds_element NROUNDS (F_e F k) NROUNDS 0 (xL, xR) Hk
                (conj HL HR)) as He.
  pose proof (mimc_rounds_element NROUNDS (F_e F k) NROUNDS 0 (xL', xR') Hk
                (conj HL' HR')) as He'.
  pose proof (mimc_rounds_injective NROUNDS (F_e F k) NROUNDS 0 (xL, xR) (xL', xR') Hk
                (conj HL HR) (conj HL' HR')) as Hinj.
  destruct (mimc_rounds F cts NROUNDS (F_e F k) NROUNDS 0 (xL, xR)) as [a b].
  destruct (mimc_rounds F cts NROUNDS (F_e F k) NROUNDS 0 (xL', xR')) as [a' b'].
  destruct He as [Ha Hb], He' as [Ha' Hb']. simpl in Ha, Hb, Ha', Hb'.
  rewrite !(normalize_id C F laws) by assumption.
  intros H. specialize (Hinj H). by injection Hinj.
Qed.

End Mimc.

Lemma mimcHash_injective_witness :
  mimcHash (Zp F_p) (λ _, 5%Z) 1 2 3 = mimcHash (Zp F_p) (λ _, 5%Z) 1 2 3 ∧
  (1 = 1 ∧ 2 = 2)%Z.
Proof.
  split; [reflexivity |].
  apply (mimcHash_injective (λ x, 0 ≤ x < F_p)%Z (Zp F_p) (λ _, 5%Z)) with (k := 3%Z);
    [apply Zp_laws; reflexivity | intros _; unfold F_p; lia | unfold F_p; lia ..
    | reflexivity].
Defined.

Lemma mimc_squeeze_app hash key n : ∀ RC outputs,
  ∃ more, mimc_squeeze hash key n RC outputs = outputs ++ more ∧ length more = n.
Proof.
  induction n as [| n IH]; intros RC outputs; simpl.
  - exists []. by rewrite app_nil_r.
  - destruct (IH (hash RC.1 RC.2 key) (outputs ++ [(hash RC.1 RC.2 key).1]))
      as (more & -> & Hlen).
    exists ((hash RC.1 RC.2 key).1 :: more). rewrite <- app_assoc. simpl.
    by rewrite Hlen.
Qed.

Lemma mimc_squeeze_prefix hash key n d : ∀ RC outputs,
  mimc_squeeze hash key n RC outputs `prefix_of`
  mimc_squeeze hash key (n + d) RC outputs.
Proof.
  induction n as [| n IH]; intros RC outputs; simpl.
  - destruct (mimc_squeeze_app hash key d RC outputs) as (more & -> & _).
    by exists more.
  - apply IH.
Qed.

(** X15. [mimcMultiHash] asked for a number of outputs other than 1 returns
    an array that starts with the number it returns when asked for one
    output (or for none in particular), followed by one more output for every
    unit above 1: asked for 0 outputs or fewer, it still returns one. *)
Theorem mimcMultiHash_outputs F hash arr key (n : Z) :
  n ≠ 1%Z →
  ∃ x xs,
    mimcMultiHash F hash arr key None = Single x ∧
    mimcMultiHash F hash arr key (Some 1%Z) = Single x ∧
    mimcMultiHash F hash arr key (Some n) = Many (x :: xs) ∧
    length xs = Z.to_nat (n - 1).
Proof.
  intros Hn. unfold mimcMultiHash. simpl.
  destruct (Z.eqb_spec n 1) as [| _]; [done |].
  set (RC := mimc_absorb F hash (default (F_zero F) key) arr).
  destruct (mimc_squeeze_app hash (default (F_zero F) key) (Z.to_nat (n - 1)) RC [RC.1])
    as (more & -> & Hlen).
  exists (F_normalize F RC.1), (map (F_normalize F) more).
  repeat split. by rewrite length_map.
Qed.

Lemma mimcMultiHash_outputs_witness :
  ∃ x xs,
    mimcMultiHash (Zp 7) (λ a b k, ((a + k) mod 7, (a * b) mod 7)%Z) [1; 2]%Z None None
      = Single x ∧
    mimcMultiHash (Zp 7) (λ a b k, ((a + k) mod 7, (a * b) mod 7)%Z) [1; 2]%Z None
      (Some 1%Z) = Single x ∧
    mimcMultiHash (Zp 7) (λ a b k, ((a + k) mod 7, (a * b) mod 7)%Z) [1; 2]%Z None
      (Some 3%Z) = Many (x :: xs) ∧
    length xs = Z.to_nat (3 - 1).
Proof.
  apply (mimcMultiHash_outputs (Zp 7) (λ a b k, ((a + k) mod 7, (a * b) mod 7)%Z)
           [1; 2]%Z None 3).
  lia.
Defined.

(** X16. Asking [mimcMultiHash] for more outputs only adds outputs at the
    end: the array for a smaller number of outputs is a prefix of the array
    for a larger one. *)
Theorem mimcMultiHash_prefix F hash arr key (n m : Z) :
  n ≠ 1%Z → m ≠ 1%Z → (n ≤ m)%Z →
  ∃ xs ys,
    mimcMultiHash F hash arr key (Some n) = Many xs ∧
    mimcMultiHash F hash arr key (Some m) = Many ys ∧
    xs `prefix_of` ys.
Proof.
  intros Hn Hm Hle. unfold mimcMultiHash. simpl.
  destruct (Z.eqb_spec n 1) as [| _]; [done |].
  destruct (Z.eqb_spec m 1) as [| _]; [done |].
  eexists _, _. split; [reflexivity |]. split; [reflexivity |].
  replace (Z.to_nat (m - 1)) with (Z.to_nat (n - 1) + (Z.to_nat (m - 1) - Z.to_nat (n - 1)))%nat
    by lia.
  destruct (mimc_squeeze_prefix hash (default (F_zero F) key) (Z.to_nat (n - 1))
              (Z.to_nat (m - 1) - Z.to_nat (n - 1))
              (mimc_absorb F hash (default (F_zero F) key) arr)
              [(mimc_absorb F hash (default (F_zero F) key) arr).1]) as [more ->].
  exists (map (F_normalize F) more). by rewrite map_app.
Qed.

Lemma mimcMultiHash_prefix_witness :
  ∃ xs ys,
    mimcMultiHash (Zp 7) (λ a b k, ((a + k) mod 7, (a * b) mod 7)%Z) [1; 2]%Z None
      (Some 2%Z) = Many xs ∧
    mimcMultiHash (Zp 7) (λ a b k, ((a + k) mod 7, (a * b) mod 7)%Z) [1; 2]%Z None
      (Some 4%Z) = Many ys ∧
    xs `prefix_of` ys.
Proof.
  apply (mimcMultiHash_prefix (Zp 7) (λ a b k, ((a + k) mod 7, (a * b) mod 7)%Z)
           [1; 2]%Z None 2 4); lia.
Defined.

Lemma mimc_constants_loop_spec F keccak p n : ∀ i c cts,
  (i + n ≤ length cts)%nat →
  let cts' := mimc_constants_loop F keccak p n i c cts in
  length cts' = length cts ∧
  ∀ j, cts' !! j =
       if decide (i ≤ j < i + n)%nat
       then Some (F_e F (Nat.iter (j - i + 1) keccak c mod p)%Z)
       else cts !! j.
Proof.
  induction n as [| n IH]; intros i c cts Hlen; simpl.
  - split; [reflexivity |]. intros j. destruct (decide _); [lia | reflexivity].
  - unfold array_set.
    destruct (Nat.ltb_spec i (length cts)) as [_ | Hge]; [| lia].
    destruct (IH (S i) (keccak c) (<[i := F_e F (keccak c mod p)%Z]> cts)) as [Hl Hj].
    { rewrite length_insert. lia. }
    split; [by rewrite Hl, length_insert |].
    intros j. rewrite Hj.
    destruct (decide (S i ≤ j < S i + n)%nat) as [Hin | Hout].
    + destruct (decide (i ≤ j < i + S n)%nat); [| lia].
      replace (j - i + 1)%nat with (S (j - S i + 1)) by lia.
      by rewrite Nat.iter_succ_r.
    + destruct (decide (i ≤ j < i + S n)%nat) as [Hin' | Hout'].
      * assert (j = i) as -> by lia.
        rewrite list_lookup_insert_eq by lia.
        replace (i - i + 1)%nat with 1%nat by lia. reflexivity.
      * apply list_lookup_insert_ne. lia.
Qed.

(** X17. The table of [mimcGetConstants] has one entry per round, and one
    entry when no round is asked for; its first and its last entry are the
    zero of the field, and the entry of every round [i] in between is the
    digest of the seed hashed [i] more times, reduced modulo the field.  With
    two rounds no digest is left in the table. *)
Theorem mimcGetConstants_table F keccak p seed_digest nRounds :
  let cts := mimcGetConstants F keccak p seed_digest nRounds in
  length cts = max 1 nRounds ∧
  cts !! 0%nat = Some (F_e F 0) ∧
  cts !! (length cts - 1)%nat = Some (F_e F 0) ∧
  ∀ i, (0 < i < nRounds - 1)%nat →
       cts !! i = Some (F_e F (Nat.iter i keccak seed_digest mod p)%Z).
Proof.
  destruct nRounds as [| m].
  - simpl. repeat split. intros i Hi. lia.
  - unfold mimcGetConstants.
    destruct (mimc_constants_loop_spec F keccak p (S m - 1) 1 seed_digest
                (replicate (S m) 0%Z)) as [Hl Hj].
    { rewrite length_replicate. lia. }
    set (cts1 := mimc_constants_loop F keccak p (S m - 1) 1 seed_digest
                   (replicate (S m) 0%Z)) in *.
    rewrite length_replicate in Hl.
    assert (H0 : array_set 0 cts1 0 (F_e F 0) = <[0%nat := F_e F 0]> cts1).
    { unfold array_set. rewrite Hl. reflexivity. }
    rewrite H0.
    assert (H1 : ∀ l : list Z, length l = S m →
                 array_set 0 l (length l - 1) (F_e F 0) = <[m := F_e F 0]> l).
    { intros l Hlen. unfold array_set. rewrite Hlen.
      replace (S m - 1)%nat with m by lia.
      destruct (Nat.ltb_spec m (S m)); [reflexivity | lia]. }
    cbv zeta. rewrite H1 by (by rewrite length_insert).
    rewrite !length_insert, Hl.
    replace (S m - 1)%nat with m by lia.
    split; [lia |]. split; [| split].
    + destruct m as [| m'].
      * apply list_lookup_insert_eq. rewrite length_insert. lia.
      * rewrite list_lookup_insert_ne by lia.
        apply list_lookup_insert_eq. lia.
    + apply list_lookup_insert_eq. rewrite length_insert. lia.
    + intros i Hi. rewrite !list_lookup_insert_ne by lia.
      rewrite Hj. destruct (decide _); [| lia].
      replace (i - 1 + 1)%nat with i by lia. reflexivity.
Qed.

(** * Nesting an engine, in general *)

(** The recorded invocations do not influence a run of the stack. *)
Lemma _runAllMiddleware_log req res stack w ev :
  req ≠ res →
  (_runAllMiddleware req res stack (log w ev)).2 = (_runAllMiddleware req res stack w).2 ∧
  cell (_runAllMiddleware req res stack (log w ev)).1 req
  = cell (_runAllMiddleware req res stack w).1 req ∧
  cell (_runAllMiddleware req res stack (log w ev)).1 res
  = cell (_runAllMiddleware req res stack w).1 res.
Proof.
  intros Hne. unfold _runAllMiddleware.
  assert (Hstack : Forall (λ m, ∀ w w' hs,
            cell w req = cell w' req ∧ cell w res = cell w' res →
            (cell (tw (_runMiddleware req res m w hs)) req
             = cell (tw (_runMiddleware req res m w' hs)) req ∧
             cell (tw (_runMiddleware req res m w hs)) res
             = cell (tw (_runMiddleware req res m w' hs)) res) ∧
            handlers (_runMiddleware req res m w hs)
            = handlers (_runMiddleware req res m w' hs) ∧
            settled (_runMiddleware req res m w hs)
            = settled (_runMiddleware req res m w' hs)) stack).
  { apply Forall_forall. intros m _ w1 w1' hs Hw.
    exact (tsim__runMiddleware req res req res Hne Hne m w1 w1' hs Hw). }
  destruct (sim_for_middleware req res req res _ _ stack Hstack (log w ev) w [] VNull false)
    as [[Hreq Hres] Ho].
  { by rewrite !cell_log. }
  destruct (for_middleware (_runMiddleware req res) stack (log w ev) [] VNull false)
    as [w1' o1'],
    (for_middleware (_runMiddleware req res) stack w [] VNull false) as [w1 o1].
  simpl in *. subst o1'. by destruct o1 as [[[e c] hs] |].
Qed.

Lemma nested__processRequest inner req res w :
  req ≠ res →
  ends_cleanly res (_runAllMiddleware req res inner w) →
  (cell (_processRequest [asMiddleware inner] req res w).1 req
   = cell (_processRequest inner req res w).1 req ∧
   cell (_processRequest [asMiddleware inner] req res w).1 res
   = cell (_processRequest inner req res w).1 res) ∧
  (_processRequest [asMiddleware inner] req res w).2 = (_processRequest inner req res w).2.
Proof.
  intros Hne Hclean.
  unfold _processRequest at 1 3 5. unfold _runAllMiddleware at 1 2 3, asMiddleware.
  rewrite for_middleware_cons, _runMiddleware_engine. cbv zeta. simpl tw.
  destruct (_runAllMiddleware_log req res inner w (EvMiddleware (MEngine inner)) Hne)
    as (Ho & Hreq & Hres).
  unfold _processRequest.
  destruct (_runAllMiddleware req res inner (log w (EvMiddleware (MEngine inner))))
    as [w1' o'], (_runAllMiddleware req res inner w) as [w1 o].
  simpl in Ho, Hreq, Hres. subst o'.
  destruct o as [[[err c] hs] |]; [| simpl; auto].
  destruct Hclean as [Hhs Herr].
  assert (Hcheck : ∀ b, _checkForCompletion w1' req res b = _checkForCompletion w1 req res b).
  { intros b. unfold _checkForCompletion. by rewrite Hres. }
  destruct c.
  - rewrite (Hhs eq_refl). cbn [_runReturnHandlers for_handlers].
    simpl in Herr. unfold end_, js_or, on_world, resolve. simpl.
    destruct (truthy err) eqn:Ht.
    + rewrite Ht. simpl. rewrite Ht.
      assert (Hhas : has_prop (cell w1 res) "error" = true).
      { unfold prop in Herr. unfold has_prop.
        destruct (cell w1 res !! "error") eqn:E; [by apply bool_decide_eq_true |].
        discriminate Herr. }
      unfold _checkForCompletion.
      rewrite cell_set_prop_eq, has_prop_insert, Hhas, !andb_false_r. simpl.
      split; [| reflexivity]. split.
      * by rewrite cell_set_prop_ne.
      * rewrite cell_set_prop_eq, Hres. apply insert_id. unfold prop in Herr.
        destruct (cell w1 res !! "error") eqn:E; simpl in Herr; [by subst |].
        discriminate Herr.
    + rewrite Hres, Herr. simpl. rewrite Hcheck.
      destruct (_checkForCompletion w1 req res true); simpl; [auto |].
      rewrite Herr. auto.
  - simpl in Herr. unfold next_. simpl. rewrite Hres, Herr. simpl.
    rewrite Hcheck. unfold _checkForCompletion.
    destruct (negb (has_prop (cell w1 res) "result") && negb (has_prop (cell w1 res) "error"));
      simpl; auto.
Qed.

(** X18. An engine whose sole middleware is [asMiddleware] of an inner
    engine answers every request as the inner engine does, with the same
    error for the callback and a response of the same contents, provided the
    run of the inner stack on the request ends cleanly: no return handler is
    left when it completes, and the response carries the serialized error it
    completed with and no error otherwise. *)
Theorem nested_engine_transparent inner callerReq w :
  (∀ req res w2, new_request_response w callerReq = (req, res, w2) →
                 ends_cleanly res (_runAllMiddleware req res inner w2)) →
  same_response (_handle [asMiddleware inner] callerReq w) (_handle inner callerReq w).
Proof.
  intros Hclean. destruct (well_formed w callerReq) eqn:Hwf.
  2: { rewrite (_handle_malformed_any_stack [asMiddleware inner] inner _ _ Hwf).
       unfold same_response. by destruct (_handle inner callerReq w).2 as [[e v] |]. }
  rewrite !(_handle_well_formed _ _ _ Hwf).
  destruct (new_request_response w callerReq) as [[req res] w2] eqn:Hnew.
  destruct (new_request_response_spec _ _ _ _ _ Hnew) as (_ & _ & Hne & _).
  pose proof (nested__processRequest inner req res w2 Hne (Hclean req res w2 eq_refl))
    as Hsim.
  pose proof (sim_deliver req res req res Hne Hne _ _ Hsim) as Hd.
  unfold same_response.
  destruct (deliver res (_processRequest [asMiddleware inner] req res w2)).2
    as [[e v] |],
    (deliver res (_processRequest inner req res w2)).2 as [[e' v'] |]; try done.
  destruct Hd as (-> & -> & -> & Hcell). done.
Qed.

Lemma nested_engine_transparent_witness :
  same_response
    (_handle [asMiddleware [Examples.passes; Examples.ends_with (VStr "boom")]]
       (VObj Examples.caller) Examples.w0)
    (_handle [Examples.passes; Examples.ends_with (VStr "boom")]
       (VObj Examples.caller) Examples.w0).
Proof.
  apply (nested_engine_transparent [Examples.passes; Examples.ends_with (VStr "boom")]
           (VObj Examples.caller) Examples.w0).
  intros req res w2 H. injection H as <- <- <-. split; [reflexivity |]. reflexivity.
Defined.

(** ** Instances of the statements without hypothesis *)


Lemma mimcGetConstants_table_witness :
  length (mimcGetConstants (Zp 7) (λ c, c * c + 1)%Z 7 3 2) = 2%nat ∧
  mimcGetConstants (Zp 7) (λ c, c * c + 1)%Z 7 3 2 !! 0%nat = Some 0%Z ∧
  mimcGetConstants (Zp 7) (λ c, c * c + 1)%Z 7 3 2 !! 1%nat = Some 0%Z.
Proof.
  destruct (mimcGetConstants_table (Zp 7) (λ c, c * c + 1)%Z 7 3 2) as (Hl & H0 & H1 & _).
  rewrite Hl in H1. split; [exact Hl | split; [exact H0 | exact H1]].
Defined.
